(** * pyXDSM: the diagram model, the grid layout and the process chain

    A shallow embedding of [pyxdsm/XDSM.py].  The builder methods of class
    [XDSM] become computations in a small state-and-exception monad over the
    model record; the three rendering methods read the model and either
    return a string or raise.  Python dictionaries whose iteration order
    reaches the output ([ins], [left_outs], [right_outs]) are association
    lists with Python's insertion-order update; the two lookup-only
    dictionaries of [_build_node_grid] are [gmap]s. *)

From Stdlib Require Import Ascii ZArith Lia.
From stdpp Require Import base list strings gmap pretty.

(** ** Exceptions and results *)

Inductive exn : Type :=
  | KeyError (key : string)
  | ValueError (msg : string)
  | TypeError (msg : string)
  | IndexError
  | OSError (msg : string).

Inductive result (A : Type) : Type :=
  | Ok (a : A)
  | Raise (e : exn).
Arguments Ok {A} a.
Arguments Raise {A} e.

#[global] Instance result_ret : MRet result := λ A a, Ok a.
#[global] Instance result_bind : MBind result := λ A B f r,
  match r with
  | Ok a => f a
  | Raise e => Raise e
  end.

(** A [for] loop whose body may raise. *)
Fixpoint foldM {A B : Type} (f : B → A → result B) (l : list A) (b : B) : result B :=
  match l with
  | [] => Ok b
  | x :: l' => b' ← f b x; foldM f l' b'
  end.

(** ** Strings *)

Definition nl : string := String "010"%char EmptyString.
Definition dquote : string := String "034"%char EmptyString.

(** [sep.join(l)] *)
Fixpoint join (sep : string) (l : list string) : string :=
  match l with
  | [] => ""
  | [x] => x
  | x :: l' => x +:+ sep +:+ join sep l'
  end.

Fixpoint concat_str (l : list string) : string :=
  match l with
  | [] => ""
  | x :: l' => x +:+ concat_str l'
  end.

(** [needle in hay] on strings. *)
Fixpoint contains (needle hay : string) : bool :=
  String.prefix needle hay ||
  match hay with
  | EmptyString => false
  | String _ hay' => contains needle hay'
  end.

(** [enumerate(l)] *)
Definition enumerate {A : Type} (l : list A) : list (nat * A) :=
  zip (seq 0 (length l)) l.

(** [x in l] for a list of names. *)
Definition name_in (x : string) (l : list string) : bool :=
  bool_decide (x ∈ l).

(** ** Data model *)

(** A label is a string, or a tuple/list of strings. *)
Inductive label : Type :=
  | LStr (s : string)
  | LSeq (l : list string).

(** An entry of [self.comps]:
    [[node_name, style, label, stack, faded, text_width]].  The width is a
    Python number; it is carried as the text [format] prints for it. *)
Record comp : Type := Comp {
  comp_name : string;
  comp_style : string;
  comp_label : label;
  comp_stack : bool;
  comp_faded : bool;
  comp_text_width : option string
}.

(** An entry of [self.connections]:
    [[src, target, style, label, stack, faded]]. *)
Record conn : Type := Conn {
  conn_src : string;
  conn_target : string;
  conn_style : string;
  conn_label : label;
  conn_stack : bool;
  conn_faded : bool
}.

(** A value of [self.ins], [self.left_outs], [self.right_outs]:
    [(node_name, style, label, stack)]. *)
Record marker : Type := Marker {
  mk_node : string;
  mk_style : string;
  mk_label : label;
  mk_stack : bool
}.

(** A Python [dict] with string keys, in insertion order. *)
Definition dict (V : Type) : Type := list (string * V).

(** [d[k] = v]: the value of an existing key is replaced where it stands, a
    new key goes to the end. *)
Fixpoint dict_set {V : Type} (k : string) (v : V) (d : dict V) : dict V :=
  match d with
  | [] => [(k, v)]
  | (k', v') :: d' =>
      if decide (k' = k) then (k, v) :: d' else (k', v') :: dict_set k v d'
  end.

Fixpoint dict_get {V : Type} (k : string) (d : dict V) : option V :=
  match d with
  | [] => None
  | (k', v') :: d' => if decide (k' = k) then Some v' else dict_get k d'
  end.

Definition dict_keys {V : Type} (d : dict V) : list string := d.*1.
Definition dict_values {V : Type} (d : dict V) : list V := d.*2.

(** The truth value of a container: it is not empty. *)
Definition truthy {A : Type} (l : list A) : bool :=
  match l with
  | [] => false
  | _ :: _ => true
  end.

Record XDSM : Type := MkXDSM {
  comps : list comp;
  connections : list conn;
  left_outs : dict marker;
  right_outs : dict marker;
  ins : dict marker;
  processes : list (list string);
  process_arrows : list bool;
  use_sfmath : bool
}.

(** [XDSM(use_sfmath=b)]: the one keyword [__init__] knows (any other makes
    it print a message and exit the process). *)
Definition new (sfmath : bool) : XDSM :=
  {| comps := []; connections := []; left_outs := []; right_outs := [];
     ins := []; processes := []; process_arrows := []; use_sfmath := sfmath |}.

(** [XDSM()] with the default keyword arguments. *)
Definition init : XDSM := new true.

(** ** The model monad: state that survives an exception *)

Definition M (A : Type) : Type := XDSM → result A * XDSM.

Definition m_ret {A : Type} (a : A) : M A := λ m, (Ok a, m).
Definition m_bind {A B : Type} (c : M A) (k : A → M B) : M B := λ m,
  match c m with
  | (Ok a, m') => k a m'
  | (Raise e, m') => (Raise e, m')
  end.
Definition m_raise {A : Type} (e : exn) : M A := λ m, (Raise e, m).
Definition m_modify (f : XDSM → XDSM) : M unit := λ m, (Ok (), f m).
(** A method that only reads [self]. *)
Definition m_reads {A : Type} (f : XDSM → result A) : M A := λ m, (f m, m).

Notation "c1 ;;; c2" := (m_bind c1 (λ _, c2)) (at level 100, right associativity).

(** ** Builder methods *)

Definition add_system (node_name style : string) (lbl : label)
    (stack faded : bool) (text_width : option string) : M unit :=
  m_modify (λ m, {| comps := comps m ++ [Comp node_name style lbl stack faded text_width];
     connections := connections m; left_outs := left_outs m;
     right_outs := right_outs m; ins := ins m; processes := processes m;
     process_arrows := process_arrows m; use_sfmath := use_sfmath m |}).

Definition set_ins (d : dict marker) (m : XDSM) : XDSM :=
  {| comps := comps m; connections := connections m; left_outs := left_outs m;
     right_outs := right_outs m; ins := d; processes := processes m;
     process_arrows := process_arrows m; use_sfmath := use_sfmath m |}.

Definition set_left_outs (d : dict marker) (m : XDSM) : XDSM :=
  {| comps := comps m; connections := connections m; left_outs := d;
     right_outs := right_outs m; ins := ins m; processes := processes m;
     process_arrows := process_arrows m; use_sfmath := use_sfmath m |}.

Definition set_right_outs (d : dict marker) (m : XDSM) : XDSM :=
  {| comps := comps m; connections := connections m; left_outs := left_outs m;
     right_outs := d; ins := ins m; processes := processes m;
     process_arrows := process_arrows m; use_sfmath := use_sfmath m |}.

Definition add_input (name : string) (lbl : label) (style : string) (stack : bool) : M unit :=
  m_modify (λ m, set_ins (dict_set name (Marker ("output_" +:+ name) style lbl stack) (ins m)) m).

Definition add_output (name : string) (lbl : label) (style : string) (stack : bool)
    (side : string) : M unit :=
  if decide (side = "left") then
    m_modify (λ m, set_left_outs
      (dict_set name (Marker ("left_output_" +:+ name) style lbl stack) (left_outs m)) m)
  else if decide (side = "right") then
    m_modify (λ m, set_right_outs
      (dict_set name (Marker ("right_output_" +:+ name) style lbl stack) (right_outs m)) m)
  else m_ret ().

Definition connect (src target : string) (lbl : label) (style : string)
    (stack faded : bool) : M unit :=
  if decide (src = target) then
    m_raise (ValueError "Can not connect component to itself")
  else
    m_modify (λ m, {| comps := comps m;
       connections := connections m ++ [Conn src target style lbl stack faded];
       left_outs := left_outs m; right_outs := right_outs m; ins := ins m;
       processes := processes m; process_arrows := process_arrows m;
       use_sfmath := use_sfmath m |}).

Definition add_process (systems : list string) (arrow : bool) : M unit :=
  m_modify (λ m, {| comps := comps m; connections := connections m;
     left_outs := left_outs m; right_outs := right_outs m; ins := ins m;
     processes := processes m ++ [systems];
     process_arrows := process_arrows m ++ [arrow];
     use_sfmath := use_sfmath m |}).

(** A call of one builder method, and the models a caller can arrive at. *)
Inductive call : Type :=
  | CallAddSystem (node_name style : string) (lbl : label) (stack faded : bool)
      (text_width : option string)
  | CallAddInput (name : string) (lbl : label) (style : string) (stack : bool)
  | CallAddOutput (name : string) (lbl : label) (style : string) (stack : bool)
      (side : string)
  | CallConnect (src target : string) (lbl : label) (style : string) (stack faded : bool)
  | CallAddProcess (systems : list string) (arrow : bool).

Definition do_call (c : call) : M unit :=
  match c with
  | CallAddSystem n s l st f w => add_system n s l st f w
  | CallAddInput n l s st => add_input n l s st
  | CallAddOutput n l s st side => add_output n l s st side
  | CallConnect a b l s st f => connect a b l s st f
  | CallAddProcess p a => add_process p a
  end.

(** The model after a sequence of calls; a call that raises leaves the model
    as it was and the caller goes on. *)
Definition run_calls (cs : list call) (m : XDSM) : XDSM :=
  foldl (λ m c, (do_call c m).2) m cs.

Definition reachable (m : XDSM) : Prop := ∃ sfmath cs, m = run_calls cs (new sfmath).

(** ** Node markup *)

Definition _parse_label (lbl : label) : string :=
  match lbl with
  | LSeq l => "$\begin{array}{c}" +:+ join " \\ " l +:+ "\end{array}$"
  | LStr s => "$" +:+ s +:+ "$"
  end.

Definition node_str (style node_name node_label : string) : string :=
  "\node [" +:+ style +:+ "] (" +:+ node_name +:+ ") {" +:+ node_label +:+ "};".

Definition comp_node (c : comp) : string :=
  let style := comp_style c in
  let style := if comp_stack c then style +:+ ",stack" else style in
  let style := if comp_faded c then style +:+ ",faded" else style in
  let style :=
    match comp_text_width c with
    | Some w => style +:+ ",text width=" +:+ w +:+ "cm"
    | None => style
    end in
  node_str style (comp_name c) (_parse_label (comp_label c)).

(** The name of the off-diagonal node of a connection. *)
Definition od_node_name (src target : string) : string := src +:+ "-" +:+ target.

Definition conn_node (c : conn) : string :=
  let style := conn_style c in
  let style := if conn_stack c then style +:+ ",stack" else style in
  let style := if conn_faded c then style +:+ ",faded" else style in
  node_str style (od_node_name (conn_src c) (conn_target c)) (_parse_label (conn_label c)).

Definition marker_node (d : marker) : string :=
  let style := mk_style d in
  let style := if mk_stack d then style +:+ ",stack" else style in
  node_str style (mk_node d) (_parse_label (mk_label d)).

(** ** The grid: a square array of strings *)

Abbreviation grid := (list (list string)).

(** An index of an axis of length [n], as numpy reads it: negative indices
    count from the end, anything else out of range raises. *)
Definition norm_index (n : nat) (i : Z) : result nat :=
  if bool_decide (0 ≤ i < Z.of_nat n)%Z then Ok (Z.to_nat i)
  else if bool_decide (- Z.of_nat n ≤ i < 0)%Z then Ok (Z.to_nat (i + Z.of_nat n))
  else Raise IndexError.

(** [grid[loc] = v] *)
Definition grid_set (g : grid) (loc : Z * Z) (v : string) : result grid :=
  r ← norm_index (length g) loc.1;
  match g !! r with
  | None => Raise IndexError
  | Some row =>
      c ← norm_index (length row) loc.2;
      Ok (<[r := <[c := v]> row]> g)
  end.

(** [grid[r, c]] for indices in range. *)
Definition cell (g : grid) (r c : nat) : option string :=
  row ← g !! r; row !! c.

(** [d[k]] on a lookup dictionary. *)
Definition idx_lookup (d : gmap string Z) (k : string) : result Z :=
  match d !! k with
  | Some v => Ok v
  | None => Raise (KeyError k)
  end.

(** [np.arange(n)] *)
Definition arange (n : nat) : list Z := Z.of_nat <$> seq 0 n.

(** ** [_build_node_grid] *)

Definition grid_size (m : XDSM) : nat :=
  let size := length (comps m) in
  let size := if truthy (ins m) then size + 1 else size in
  let size := if truthy (left_outs m) then size + 1 else size in
  if truthy (right_outs m) then size + 1 else size.

Definition comps_rows (m : XDSM) : list Z :=
  let rows := arange (length (comps m)) in
  if truthy (ins m) then (λ i, i + 1)%Z <$> rows else rows.

Definition comps_cols (m : XDSM) : list Z :=
  let cols := arange (length (comps m)) in
  if truthy (left_outs m) then (λ j, j + 1)%Z <$> cols else cols.

(** The state of the diagonal loop: the grid and the two index maps. *)
Definition placing : Type := grid * gmap string Z * gmap string Z.

Definition place_comp (st : placing) (x : Z * (Z * comp)) : result placing :=
  let '(g, row_idx_map, col_idx_map) := st in
  let '(i_row, (j_col, c)) := x in
  g' ← grid_set g (i_row, j_col) (comp_node c);
  Ok (g', <[comp_name c := i_row]> row_idx_map, <[comp_name c := j_col]> col_idx_map).

Definition place_conn (row_idx_map col_idx_map : gmap string Z) (g : grid) (c : conn)
    : result grid :=
  src_row ← idx_lookup row_idx_map (conn_src c);
  target_col ← idx_lookup col_idx_map (conn_target c);
  grid_set g (src_row, target_col) (conn_node c).

Definition place_left_out (row_idx_map : gmap string Z) (g : grid) (x : string * marker)
    : result grid :=
  i_row ← idx_lookup row_idx_map x.1;
  grid_set g (i_row, 0%Z) (marker_node x.2).

Definition place_right_out (row_idx_map : gmap string Z) (g : grid) (x : string * marker)
    : result grid :=
  i_row ← idx_lookup row_idx_map x.1;
  grid_set g (i_row, (-1)%Z) (marker_node x.2).

Definition place_in (col_idx_map : gmap string Z) (g : grid) (x : string * marker)
    : result grid :=
  j_col ← idx_lookup col_idx_map x.1;
  grid_set g (0%Z, j_col) (marker_node x.2).

(** The grid as it stands before it is mashed into a string. *)
Definition node_grid (m : XDSM) : result grid :=
  let size := grid_size m in
  let g := replicate size (replicate size "") in
  st ← foldM place_comp (zip (comps_rows m) (zip (comps_cols m) (comps m))) (g, ∅, ∅);
  let '(g, row_idx_map, col_idx_map) := st in
  g ← foldM (place_conn row_idx_map col_idx_map) (connections m) g;
  g ← foldM (place_left_out row_idx_map) (left_outs m) g;
  g ← foldM (place_right_out row_idx_map) (right_outs m) g;
  foldM (place_in col_idx_map) (ins m) g.

Definition row_str (x : nat * list string) : string :=
  "%Row " +:+ pretty x.1 +:+ nl +:+ join ("&" +:+ nl) x.2 +:+ "\\" +:+ nl.

Definition rows_str (g : grid) : string :=
  foldl (λ acc x, acc +:+ row_str x) "" (enumerate g).

Definition build_node_grid (m : XDSM) : result string :=
  g ← node_grid m; Ok (rows_str g).

Definition _build_node_grid : M string := m_reads build_node_grid.

(** ** [_build_edges] *)

Definition edge_string (start end_ : string) : string :=
  "(" +:+ start +:+ ") edge [DataLine] (" +:+ end_ +:+ ")".

Definition h_edges (m : XDSM) : list string :=
  ((λ c, edge_string (conn_src c) (od_node_name (conn_src c) (conn_target c)))
     <$> connections m)
  ++ ((λ x : string * marker, edge_string x.1 (mk_node x.2)) <$> left_outs m)
  ++ ((λ x : string * marker, edge_string x.1 (mk_node x.2)) <$> right_outs m).

Definition v_edges (m : XDSM) : list string :=
  ((λ c, edge_string (od_node_name (conn_src c) (conn_target c)) (conn_target c))
     <$> connections m)
  ++ ((λ x : string * marker, edge_string x.1 (mk_node x.2)) <$> ins m).

Definition build_edges (m : XDSM) : string :=
  let paths_str := "% Horizontal edges" +:+ nl +:+ join nl (h_edges m) +:+ nl in
  paths_str +:+ "% Vertical edges" +:+ nl +:+ join nl (v_edges m) +:+ ";".

Definition _build_edges : M string := m_reads (λ m, Ok (build_edges m)).

(** ** [_build_process_chain] *)

Definition sys_names (m : XDSM) : list string := comp_name <$> comps m.

Definition output_names (m : XDSM) : list string :=
  (mk_node <$> dict_values (ins m))
  ++ (mk_node <$> dict_values (left_outs m))
  ++ (mk_node <$> dict_values (right_outs m)).

Definition no_system_msg (sys : string) : string :=
  "process includes a system named " +:+ dquote +:+ sys +:+ dquote
  +:+ " but no system with that name exists.".

Definition chainin (sys : string) : string := "\chainin (" +:+ sys +:+ ");" +:+ nl.

Definition chainin_join (sys style : string) : string :=
  "\chainin (" +:+ sys +:+ ") [join=by " +:+ style +:+ "];" +:+ nl.

(** One turn of the inner loop; the state is [chain_str] and [start_tip]. *)
Definition chain_step (sysn outn : list string) (arrow : bool)
    (st : string * bool) (x : nat * string) : result (string * bool) :=
  let '(chain_str, start_tip) := st in
  let '(i, sys) := x in
  if negb (name_in sys sysn) && negb (name_in sys outn) then
    Raise (ValueError (no_system_msg sys))
  else
    let start_tip := if name_in sys outn && (i =? 0) then true else start_tip in
    if i =? 0 then Ok (chain_str +:+ chainin sys, start_tip)
    else if name_in sys outn || ((i =? 1) && start_tip) then
      if arrow then Ok (chain_str +:+ chainin_join sys "ProcessTipA", start_tip)
      else Ok (chain_str +:+ chainin_join sys "ProcessTip", start_tip)
    else
      if arrow then Ok (chain_str +:+ chainin_join sys "ProcessHVA", start_tip)
      else Ok (chain_str +:+ chainin_join sys "ProcessHV", start_tip).

Definition chain_open : string :=
  "{ [start chain=process]" +:+ nl +:+ " \begin{pgfonlayer}{process} " +:+ nl.

Definition chain_close : string := "\end{pgfonlayer}" +:+ nl +:+ "}".

(** One turn of the outer loop. *)
Definition chain_proc (sysn outn : list string) (chain_str : string)
    (x : list string * bool) : result string :=
  let '(proc, arrow) := x in
  let chain_str := chain_str +:+ chain_open in
  st ← foldM (chain_step sysn outn arrow) (enumerate proc) (chain_str, false);
  Ok (st.1 +:+ chain_close).

Definition build_process_chain (m : XDSM) : result string :=
  foldM (chain_proc (sys_names m) (output_names m))
    (zip (processes m) (process_arrows m)) "".

Definition _build_process_chain : M string := m_reads build_process_chain.

(** ** [write] *)

(** The document templates, [format]ted. *)
Definition tikzpicture_template (nodes edges process diagram_styles_path optional_packages : string) : string :=
  join nl [
    "";
    "%%% Preamble Requirements %%%";
    "% \usepackage{geometry}";
    "% \usepackage{amsfonts}";
    "% \usepackage{amsmath}";
    "% \usepackage{amssymb}";
    "% \usepackage{tikz}";
    "";
    "% Optional packages such as sfmath set through python interface";
    "% \usepackage{" +:+ optional_packages +:+ "}";
    "";
    "% \usetikzlibrary{arrows,chains,positioning,scopes,shapes.geometric,shapes.misc,shadows}";
    "";
    "%%% End Preamble Requirements %%%";
    "";
    "\input{" +:+ diagram_styles_path +:+ "}";
    "\begin{tikzpicture}";
    "";
    "\matrix[MatrixSetup]{";
    nodes +:+ "};";
    "";
    "% XDSM process chains";
    process;
    "";
    "\begin{pgfonlayer}{data}";
    "\path";
    edges;
    "\end{pgfonlayer}";
    "";
    "\end{tikzpicture}";
    ""
  ].

Definition tex_template (tikzpicture_path optional_packages version : string) : string :=
  join nl [
    "";
    "% XDSM diagram created with pyXDSM " +:+ version +:+ ".";
    "\documentclass{article}";
    "\usepackage{geometry}";
    "\usepackage{amsfonts}";
    "\usepackage{amsmath}";
    "\usepackage{amssymb}";
    "\usepackage{tikz}";
    "";
    "% Optional packages such as sfmath set through python interface";
    "\usepackage{" +:+ optional_packages +:+ "}";
    "";
    "% Define the set of TikZ packages to be included in the architecture diagram document";
    "\usetikzlibrary{arrows,chains,positioning,scopes,shapes.geometric,shapes.misc,shadows}";
    "";
    "";
    "% Set the border around all of the architecture diagrams to be tight to the diagrams themselves";
    "% (i.e. no longer need to tinker with page size parameters)";
    "\usepackage[active,tightpage]{preview}";
    "\PreviewEnvironment{tikzpicture}";
    "\setlength{\PreviewBorder}{5pt}";
    "";
    "\begin{document}";
    "";
    "\input{" +:+ tikzpicture_path +:+ "}";
    "";
    "\end{document}";
    ""
  ].

Definition _compose_optional_package_list (m : XDSM) : string :=
  let optional_packages_list := if use_sfmath m then ["sfmath"] else [] in
  join "," optional_packages_list.

Definition cleanup_exts : list string := ["aux"; "fdb_latexmk"; "fls"; "log"].

Section write.
(** What the module cannot see of its surroundings: the path of the style
    file next to the module, the package version, and the operating system.
    [world] is whatever the operating system keeps (files, directories,
    permissions); each call [write] makes on it is a function of the world,
    and those that Python lets fail return an exception or nothing:
    [os_write_file path s] is [with open(path, 'w') as f: f.write(s)],
    [os_system] runs a command (its exit status is dropped),
    [os_path_exists] and [os_remove] are the functions of [os]. *)
Variable diagram_styles_path : string.
Variable pyxdsm_version : string.
Variable world : Type.
Variable os_write_file : string → string → world → result unit * world.
Variable os_system : string → world → world.
Variable os_path_exists : string → world → bool.
Variable os_remove : string → world → result unit * world.

(** The loop over the extensions of the build files; a failing [os.remove]
    ends it. *)
Fixpoint remove_build_files (file_name : string) (exts : list string) (w : world) :
    result unit * world :=
  match exts with
  | [] => (Ok (), w)
  | ext :: exts' =>
      let f_name := file_name +:+ "." +:+ ext in
      if os_path_exists f_name w then
        match os_remove f_name w with
        | (Ok _, w) => remove_build_files file_name exts' w
        | (Raise e, w) => (Raise e, w)
        end
      else remove_build_files file_name exts' w
  end.

(** [file_name] is [None] when the caller leaves the prefix out. *)
Definition write (file_name : option string) (build cleanup quiet : bool)
    (m : XDSM) (w : world) : result unit * world :=
  match build_node_grid m with
  | Raise e => (Raise e, w)
  | Ok nodes =>
  let edges := build_edges m in
  match build_process_chain m with
  | Raise e => (Raise e, w)
  | Ok process =>
  let optional_packages_str := _compose_optional_package_list m in
  let tikzpicture_str :=
    tikzpicture_template nodes edges process diagram_styles_path optional_packages_str in
  match file_name with
  | None => (Raise (TypeError "unsupported operand type(s) for +: 'NoneType' and 'str'"), w)
  | Some file_name =>
  match os_write_file (file_name +:+ ".tikz") tikzpicture_str w with
  | (Raise e, w) => (Raise e, w)
  | (Ok _, w) =>
  let tex_str :=
    tex_template (file_name +:+ ".tikz") optional_packages_str pyxdsm_version in
  match (if bool_decide (file_name ≠ "") then os_write_file (file_name +:+ ".tex") tex_str w
         else (Ok (), w)) with
  | (Raise e, w) => (Raise e, w)
  | (Ok _, w) =>
  if build then
    let command := "pdflatex " in
    let command :=
      if quiet then command +:+ " -interaction=batchmode -halt-on-error " else command in
    let w := os_system (command +:+ file_name +:+ ".tex") w in
    if cleanup then remove_build_files file_name cleanup_exts w
    else (Ok (), w)
  else (Ok (), w)
  end end end end end.
End write.

(** ** [__init__] *)

(** What the constructor leaves: a model, or the process has printed a
    message and exited with a status. *)
Inductive started : Type :=
  | Started (m : XDSM)
  | Exited (printed : string) (status : Z).

Definition _get_default_kwargs : dict bool := [("use_sfmath", true)].

(** The loop over the keyword arguments; [self_kwargs] starts as the
    defaults.  The message is printed as it stands: [format] is never
    called on it. *)
Fixpoint update_kwargs (kwargs self_kwargs : dict bool) : dict bool + string * Z :=
  match kwargs with
  | [] => inl self_kwargs
  | (key, val) :: kwargs' =>
      if bool_decide (key ∈ dict_keys self_kwargs) then
        update_kwargs kwargs' (dict_set key val self_kwargs)
      else inr ("Keyword " +:+ dquote +:+ "{}" +:+ dquote +:+ " not found, quitting.", (-1)%Z)
  end.

(** [XDSM] called with keyword arguments; the model record keeps of [self.kwargs] the one flag
    the defaults hold. *)
Definition __init__ (kwargs : dict bool) : started :=
  match update_kwargs kwargs _get_default_kwargs with
  | inl self_kwargs => Started (new (default true (dict_get "use_sfmath" self_kwargs)))
  | inr (printed, status) => Exited printed status
  end.

(** * Vocabulary of the properties *)

(** ** Models *)

(** What every model built through the builder methods satisfies: no
    connection joins a name to itself, every process has its arrow flag, and
    no marker dictionary binds a name twice. *)
Record wf (m : XDSM) : Prop := {
  wf_conn : ∀ c, c ∈ connections m → conn_src c ≠ conn_target c;
  wf_arrows : length (processes m) = length (process_arrows m);
  wf_ins : NoDup (dict_keys (ins m));
  wf_left : NoDup (dict_keys (left_outs m));
  wf_right : NoDup (dict_keys (right_outs m))
}.

(** ** The scenarios used below *)

(** Component [A], then an input labelled [z] attached to it. *)
Definition one_input_model (style : string) (lbl : label) (stack faded : bool)
    (text_width : option string) (in_style : string) (in_stack : bool) : XDSM :=
  ((add_system "A" style lbl stack faded text_width ;;;
    add_input "A" (LStr "z") in_style in_stack) init).2.

(** The scenario as the specification words it: a 2-by-2 grid with [A] at
    (1,0) and the input marker at (0,0), and an edge from [A] to a node
    called [output_z], either spelled in full or without its line style. *)
Definition one_input_scenario_as_stated (m : XDSM) : Prop :=
  (∃ g c d, node_grid m = Ok g ∧ comps m = [c] ∧ ins m = [("A", d)]
     ∧ length g = 2 ∧ (∀ row, row ∈ g → length row = 2)
     ∧ cell g 1 0 = Some (comp_node c) ∧ cell g 0 0 = Some (marker_node d))
  ∧ (edge_string "A" "output_z" ∈ v_edges m
     ∨ contains "(A) edge (output_z)" (build_edges m) = true).

(** ** The process chain, entry by entry *)

(** An entry that is neither a component name nor a marker node name. *)
Definition unresolved (sysn outn : list string) (sys : string) : bool :=
  negb (name_in sys sysn) && negb (name_in sys outn).

(** The four join styles: tip or horizontal-then-vertical, each with an
    arrowed variant. *)
Definition join_style (arrow tip : bool) : string :=
  match tip, arrow with
  | true, true => "ProcessTipA"
  | true, false => "ProcessTip"
  | false, true => "ProcessHVA"
  | false, false => "ProcessHV"
  end.

(** A rule that says which links of a sequence take the tip join: from the
    sequence, the position of the link's target entry and that entry. *)
Definition tip_rule : Type := list string → nat → string → bool.

(** The first entry of the sequence is a marker. *)
Definition starts_at_marker (outn : list string) (proc : list string) : bool :=
  match proc with
  | first :: _ => name_in first outn
  | [] => false
  end.

(** Tip when the entry chained in (the link's target) is a marker, or when
    the link goes to the second entry of a sequence that starts at a
    marker. *)
Definition tip_by_target (outn : list string) : tip_rule := λ proc i sys,
  name_in sys outn || ((i =? 1) && starts_at_marker outn proc).

(** Tip when the entry the link comes from (its source) is a marker, or when
    the link goes to the second entry of a sequence that starts at a
    marker. *)
Definition tip_by_source (outn : list string) : tip_rule := λ proc i sys,
  match proc !! (i - 1) with
  | Some prev => name_in prev outn
  | None => false
  end || ((i =? 1) && starts_at_marker outn proc).

(** What one entry adds to the chain under a given rule, and the block of a
    whole process. *)
Definition entry_str (tip : tip_rule) (arrow : bool) (proc : list string)
    (x : nat * string) : string :=
  if x.1 =? 0 then chainin x.2
  else chainin_join x.2 (join_style arrow (tip proc x.1 x.2)).

Definition proc_str (tip : tip_rule) (x : list string * bool) : string :=
  chain_open +:+ concat_str (entry_str tip x.2 x.1 <$> enumerate x.1) +:+ chain_close.

(** The exception for an entry that does not resolve. *)
Definition raise_unresolved {A : Type} (sys : string) : result A :=
  Raise (ValueError (no_system_msg sys)).

(** Component [A] and a process that goes on to [B], which nothing
    declares. *)
Definition dangling_process_model : XDSM :=
  run_calls [CallAddSystem "A" "Analysis" (LStr "A") false false None;
             CallAddProcess ["A"; "B"] true] init.

(** Two components, an input on the first, and a process that passes through
    the input marker: [A], [output_A], [B]. *)
Definition through_marker_model : XDSM :=
  run_calls [CallAddSystem "A" "Analysis" (LStr "A") false false None;
             CallAddSystem "B" "Analysis" (LStr "B") false false None;
             CallAddInput "A" (LStr "z") "DataIO" false;
             CallAddProcess ["A"; "output_A"; "B"] true] init.

(** ** The grid and its diagonal *)

(** An [n]-by-[n] grid. *)
Definition square (n : nat) (g : grid) : Prop :=
  length g = n ∧ ∀ r row, g !! r = Some row → length row = n.

(** How far the diagonal is pushed down and to the right. *)
Definition row_shift (m : XDSM) : nat := if truthy (ins m) then 1 else 0.
Definition col_shift (m : XDSM) : nat := if truthy (left_outs m) then 1 else 0.

(** The triples the diagonal loop runs over. *)
Definition placements (m : XDSM) : list (Z * (Z * comp)) :=
  zip (comps_rows m) (zip (comps_cols m) (comps m)).

(** The two index maps after [k] components: a name is bound in both or in
    neither, and a bound name points at the row and the column of one
    component that carries it. *)
Definition indexed (m : XDSM) (k : nat) (row_idx_map col_idx_map : gmap string Z) : Prop :=
  ∀ name,
    (∃ j x, j < k ∧ comps m !! j = Some x ∧ comp_name x = name
       ∧ row_idx_map !! name = Some (Z.of_nat (j + row_shift m))
       ∧ col_idx_map !! name = Some (Z.of_nat (j + col_shift m)))
    ∨ (row_idx_map !! name = None ∧ col_idx_map !! name = None
       ∧ ∀ j x, j < k → comps m !! j = Some x → comp_name x ≠ name).

(** The grid after [k] components: they sit on the shifted diagonal and
    every other cell is empty. *)
Definition diagonal_upto (m : XDSM) (k : nat) (g : grid) : Prop :=
  square (grid_size m) g
  ∧ (∀ i c, i < k → comps m !! i = Some c →
       cell g (i + row_shift m) (i + col_shift m) = Some (comp_node c))
  ∧ (∀ r c, r < grid_size m → c < grid_size m →
       (∀ i, i < k → r ≠ i + row_shift m ∨ c ≠ i + col_shift m) →
       cell g r c = Some "").

(** The state of the diagonal loop after [k] components. *)
Definition placed_upto (m : XDSM) (k : nat) (st : placing) : Prop :=
  diagonal_upto m k st.1.1 ∧ indexed m k st.1.2 st.2.

(** The components sit on the shifted diagonal of a square grid. *)
Definition diagonal (m : XDSM) (g : grid) : Prop :=
  square (grid_size m) g
  ∧ ∀ i c, comps m !! i = Some c →
      cell g (i + row_shift m) (i + col_shift m) = Some (comp_node c).

(** Two components, each with an input. *)
Definition two_inputs_model : XDSM :=
  run_calls [CallAddSystem "A" "Analysis" (LStr "A") false false None;
             CallAddSystem "B" "Analysis" (LStr "B") false false None;
             CallAddInput "A" (LStr "x") "DataIO" false;
             CallAddInput "B" (LStr "z") "DataIO" false] init.

(** What the specification says of the grid of a model without markers: it
    is N by N, the i-th component sits at (i, i), and a cell off the diagonal
    is empty or holds the node of a connection from the component of its row
    to the component of its column. *)
Definition diagonal_grid (m : XDSM) (g : grid) : Prop :=
  length g = length (comps m)
  ∧ (∀ r row, g !! r = Some row → length row = length (comps m))
  ∧ (∀ i c, comps m !! i = Some c → cell g i i = Some (comp_node c))
  ∧ (∀ r c, r < length (comps m) → c < length (comps m) → r ≠ c →
       cell g r c = Some ""
       ∨ ∃ cn x y, cn ∈ connections m ∧ cell g r c = Some (conn_node cn)
           ∧ comps m !! r = Some x ∧ comp_name x = conn_src cn
           ∧ comps m !! c = Some y ∧ comp_name y = conn_target cn).

(** No input and no output marker is declared. *)
Definition no_markers (m : XDSM) : Prop :=
  ins m = [] ∧ left_outs m = [] ∧ right_outs m = [].

(** Every connection joins two names that components carry. *)
Definition endpoints_declared (m : XDSM) : Prop :=
  ∀ cn, cn ∈ connections m →
    conn_src cn ∈ sys_names m ∧ conn_target cn ∈ sys_names m.

(** Components [A] and [B] with the connection from [A] to [B]. *)
Definition two_connected_model : XDSM :=
  run_calls [CallAddSystem "A" "Analysis" (LStr "A") false false None;
             CallAddSystem "B" "Analysis" (LStr "B") false false None;
             CallConnect "A" "B" (LStr "y") "DataInter" false false] init.

(** Component [A] and a connection from [A] to a name no component has. *)
Definition dangling_connection_model : XDSM :=
  run_calls [CallAddSystem "A" "Analysis" (LStr "A") false false None;
             CallConnect "A" "B" (LStr "y") "DataInter" false false] init.

(** ** Marker node names *)

(** Every marker's node is named after the side it is on and the key it is
    stored under. *)
Definition named_by_key (prefix : string) (d : dict marker) : Prop :=
  ∀ k x, (k, x) ∈ d → mk_node x = prefix +:+ k.

Definition markers_named (m : XDSM) : Prop :=
  named_by_key "output_" (ins m)
  ∧ named_by_key "left_output_" (left_outs m)
  ∧ named_by_key "right_output_" (right_outs m).

(** A model with an input and both outputs on one component and an input on
    another. *)
Definition all_markers_model : XDSM :=
  run_calls [CallAddSystem "A" "Analysis" (LStr "A") false false None;
             CallAddSystem "B" "Analysis" (LStr "B") false false None;
             CallAddInput "A" (LStr "x") "DataIO" false;
             CallAddOutput "A" (LStr "f") "DataIO" false "left";
             CallAddOutput "A" (LStr "g") "DataIO" true "right";
             CallAddInput "B" (LStr "z") "DataIO" false;
             CallConnect "A" "B" (LStr "y") "DataInter" false false] init.

(** ** Names the grid looks up *)

(** The names [_build_node_grid] looks up in its index maps, in the order
    it meets them: the two ends of every connection, then the owners of the
    left outputs, of the right outputs and of the inputs. *)
Definition referenced_names (m : XDSM) : list string :=
  concat ((λ cn, [conn_src cn; conn_target cn]) <$> connections m)
  ++ dict_keys (left_outs m) ++ dict_keys (right_outs m) ++ dict_keys (ins m).

(** ** Every cell of the grid *)

(** The index of the last component that carries a name: the one the index
    maps of [_build_node_grid] end up pointing at. *)
Fixpoint last_index_from (k : nat) (name : string) (cs : list comp) : option nat :=
  match cs with
  | [] => None
  | c :: cs' =>
      match last_index_from (S k) name cs' with
      | Some j => Some j
      | None => if decide (comp_name c = name) then Some k else None
      end
  end.

Definition last_index (name : string) (cs : list comp) : option nat :=
  last_index_from 0 name cs.

(** The row and the column a name stands for. *)
Definition row_of (m : XDSM) (name : string) : option nat :=
  (λ j, j + row_shift m) <$> last_index name (comps m).
Definition col_of (m : XDSM) (name : string) : option nat :=
  (λ j, j + col_shift m) <$> last_index name (comps m).

(** The cell each declaration is written to. *)
Definition conn_cell (m : XDSM) (cn : conn) : option (nat * nat) :=
  r ← row_of m (conn_src cn); c ← col_of m (conn_target cn); Some (r, c).
Definition left_cell (m : XDSM) (x : string * marker) : option (nat * nat) :=
  r ← row_of m x.1; Some (r, 0).
Definition right_cell (m : XDSM) (x : string * marker) : option (nat * nat) :=
  r ← row_of m x.1; Some (r, grid_size m - 1).
Definition in_cell (m : XDSM) (x : string * marker) : option (nat * nat) :=
  c ← col_of m x.1; Some (0, c).

(** Among the declarations of a list, the value of the last one written to
    a given cell. *)
Fixpoint last_hit {A : Type} (pos : A → option (nat * nat)) (val : A → string)
    (l : list A) (p : nat * nat) : option string :=
  match l with
  | [] => None
  | x :: l' =>
      match last_hit pos val l' p with
      | Some v => Some v
      | None => if decide (pos x = Some p) then Some (val x) else None
      end
  end.

(** A cell after the diagonal loop: a component's node on the shifted
    diagonal, empty elsewhere. *)
Definition diag_cell (m : XDSM) (p : nat * nat) : string :=
  if bool_decide (row_shift m ≤ p.1 ∧ col_shift m ≤ p.2
                  ∧ p.1 - row_shift m = p.2 - col_shift m) then
    match comps m !! (p.1 - row_shift m) with
    | Some c => comp_node c
    | None => ""
    end
  else "".

(** A cell of the finished grid: what the last loop that wrote to it left
    there, the loops taken from the last one back. *)
Definition expected_cell (m : XDSM) (p : nat * nat) : string :=
  match last_hit (in_cell m) (λ x, marker_node x.2) (ins m) p with
  | Some v => v
  | None =>
  match last_hit (right_cell m) (λ x, marker_node x.2) (right_outs m) p with
  | Some v => v
  | None =>
  match last_hit (left_cell m) (λ x, marker_node x.2) (left_outs m) p with
  | Some v => v
  | None =>
  match last_hit (conn_cell m) conn_node (connections m) p with
  | Some v => v
  | None => diag_cell m p
  end end end end.

(** ** Nodes that are in the grid *)

(** The component that carries a name, the last one should several do, is
    the [i]-th, and its node is in its cell of the diagonal. *)
Definition component_at (m : XDSM) (g : grid) (name : string) (i : nat) : Prop :=
  last_index name (comps m) = Some i
  ∧ ∃ c, comps m !! i = Some c ∧ comp_name c = name
      ∧ cell g (i + row_shift m) (i + col_shift m) = Some (comp_node c).

(** The cell in the row of the [i]-th component and the column of the
    [j]-th holds the node of a declared connection from [src] to
    [target]. *)
Definition connection_at (m : XDSM) (g : grid) (src target : string) (i j : nat) : Prop :=
  ∃ cn, cn ∈ connections m ∧ conn_src cn = src ∧ conn_target cn = target
    ∧ cell g (i + row_shift m) (j + col_shift m) = Some (conn_node cn).

(** [name] is the node name of a declared marker whose owner is a component
    on the diagonal, and the marker's node is in its border cell: the first
    column of the owner's row for a left output, the last column for a right
    output, the first row of the owner's column for an input. *)
Definition marker_at (m : XDSM) (g : grid) (name : string) : Prop :=
  ∃ k d i, mk_node d = name ∧ component_at m g k i
    ∧ (((k, d) ∈ left_outs m ∧ cell g (i + row_shift m) 0 = Some (marker_node d))
       ∨ ((k, d) ∈ right_outs m
          ∧ cell g (i + row_shift m) (length g - 1) = Some (marker_node d))
       ∨ ((k, d) ∈ ins m ∧ cell g 0 (i + col_shift m) = Some (marker_node d))).

(** The declarations behind the edges of [_build_edges]. *)
Definition h_edge_of (m : XDSM) (e : string) : Prop :=
  (∃ cn, cn ∈ connections m
     ∧ e = edge_string (conn_src cn) (od_node_name (conn_src cn) (conn_target cn)))
  ∨ (∃ k d, ((k, d) ∈ left_outs m ∨ (k, d) ∈ right_outs m)
       ∧ e = edge_string k (mk_node d)).
Definition v_edge_of (m : XDSM) (e : string) : Prop :=
  (∃ cn, cn ∈ connections m
     ∧ e = edge_string (od_node_name (conn_src cn) (conn_target cn)) (conn_target cn))
  ∨ (∃ k d, (k, d) ∈ ins m ∧ e = edge_string k (mk_node d)).

(** The same two components, the two inputs declared the other way
    round. *)
Definition two_inputs_swapped_model : XDSM :=
  run_calls [CallAddSystem "A" "Analysis" (LStr "A") false false None;
             CallAddSystem "B" "Analysis" (LStr "B") false false None;
             CallAddInput "B" (LStr "z") "DataIO" false;
             CallAddInput "A" (LStr "x") "DataIO" false] init.

(** * Properties *)

(** ** Dictionaries *)

Section dict.
Context {V : Type}.
Implicit Types (d : dict V) (k : string) (v : V).

Lemma dict_get_set_eq k v d : dict_get k (dict_set k v d) = Some v.
Proof.
  induction d as [|[k' v'] d IH]; simpl.
  - by rewrite decide_True.
  - destruct (decide (k' = k)) as [->|Hne]; simpl.
    + by rewrite decide_True.
    + by rewrite decide_False.
Qed.

Lemma dict_get_set_ne k k' v d :
  k ≠ k' → dict_get k' (dict_set k v d) = dict_get k' d.
Proof.
  intros Hne. induction d as [|[k0 v0] d IH]; simpl.
  - by rewrite decide_False.
  - destruct (decide (k0 = k)) as [->|Hne0]; simpl.
    + by rewrite !decide_False.
    + by rewrite IH.
Qed.

(** The keys after [d[k] = v]: unchanged for a key already there. *)
Lemma dict_set_keys k v d :
  dict_keys (dict_set k v d)
  = if bool_decide (k ∈ dict_keys d) then dict_keys d else dict_keys d ++ [k].
Proof.
  unfold dict_keys. induction d as [|[k' v'] d IH]; [done|].
  cbn [dict_set]. destruct (decide (k' = k)) as [->|Hne]; rewrite !fmap_cons; cbn [fst].
  - rewrite bool_decide_true; [done | apply list_elem_of_here].
  - rewrite IH. case_bool_decide as Hin.
    + rewrite bool_decide_true; [done | by apply list_elem_of_further].
    + rewrite bool_decide_false; [done|].
      intros [?|?]%elem_of_cons; [by apply Hne | done].
Qed.

Lemma dict_set_NoDup k v d : NoDup (dict_keys d) → NoDup (dict_keys (dict_set k v d)).
Proof.
  intros Hd. rewrite dict_set_keys. case_bool_decide as Hin; [done|].
  apply NoDup_app. split_and!; [done | | apply NoDup_singleton].
  intros x Hx ->%list_elem_of_singleton. done.
Qed.

Lemma dict_set_truthy k v d : truthy (dict_set k v d) = true.
Proof. destruct d as [|[k' v'] d]; simpl; [done|]. by case_decide. Qed.

(** With distinct keys, a key is bound to at most one value. *)
Lemma dict_get_elem_of k v d :
  NoDup (dict_keys d) → (k, v) ∈ d → dict_get k d = Some v.
Proof.
  unfold dict_keys. induction d as [|[k' v'] d IH]; simpl.
  - intros _ H. by apply elem_of_nil in H.
  - intros [Hk' Hd]%NoDup_cons [Heq|Hin]%elem_of_cons.
    + simplify_eq. by rewrite decide_True.
    + rewrite decide_False; [by apply IH|].
      intros ->. apply Hk'. apply list_elem_of_fmap. by exists (k, v).
Qed.
End dict.

(** ** The models a caller can arrive at *)

Lemma wf_new (sfmath : bool) : wf (new sfmath).
Proof. split; simpl; try apply NoDup_nil_2; [|done]. intros c H. by apply elem_of_nil in H. Qed.

Lemma wf_do_call c m : wf m → wf (do_call c m).2.
Proof.
  intros [Hc Ha Hi Hl Hr]. destruct c; simpl.
  - by split.
  - split; simpl; try done. by apply dict_set_NoDup.
  - unfold add_output. repeat case_decide; simpl; split; simpl; try done;
      by apply dict_set_NoDup.
  - unfold connect. case_decide as Heq; simpl; split; simpl; try done.
    intros c [Hin| ->%list_elem_of_singleton]%elem_of_app; [by apply Hc | done].
  - split; simpl; try done. rewrite !length_app. simpl. lia.
Qed.

Lemma run_calls_snoc cs c m : run_calls (cs ++ [c]) m = (do_call c (run_calls cs m)).2.
Proof. unfold run_calls. by rewrite foldl_app. Qed.

Lemma reachable_init : reachable init.
Proof. by exists true, []. Qed.

Lemma reachable_step c m : reachable m → reachable (do_call c m).2.
Proof. intros (sf & cs & ->). exists sf, (cs ++ [c]). by rewrite run_calls_snoc. Qed.

Lemma reachable_wf m : reachable m → wf m.
Proof.
  intros (sf & cs & ->). induction cs as [|c cs IH] using rev_ind.
  - apply wf_new.
  - rewrite run_calls_snoc. by apply wf_do_call.
Qed.

(** ** The builder methods *)

(** C3: [connect] with the source equal to the target raises the validation
    error and leaves the model exactly as it was, whatever the label, style
    and flags; with a source different from the target it returns normally
    and the model differs only by one connection appended to
    [connections]. *)
Theorem connect_self_raises_else_appends
    (src target : string) (lbl : label) (style : string) (stack faded : bool) (m : XDSM) :
  (src = target →
     connect src target lbl style stack faded m
     = (Raise (ValueError "Can not connect component to itself"), m))
  ∧ (src ≠ target →
     let r := connect src target lbl style stack faded m in
     r.1 = Ok ()
     ∧ connections r.2 = connections m ++ [Conn src target style lbl stack faded]
     ∧ comps r.2 = comps m ∧ ins r.2 = ins m
     ∧ left_outs r.2 = left_outs m ∧ right_outs r.2 = right_outs m
     ∧ processes r.2 = processes m ∧ process_arrows r.2 = process_arrows m
     ∧ use_sfmath r.2 = use_sfmath m).
Proof.
  unfold connect. split; intros H.
  - by rewrite decide_True.
  - rewrite decide_False by done. simpl. by repeat split.
Qed.

Lemma connect_self_raises_else_appends_witness :
  connect "A" "A" (LStr "y") "DataInter" false false init
  = (Raise (ValueError "Can not connect component to itself"), init)
  ∧ connections (connect "A" "B" (LStr "y") "DataInter" false false init).2
    = [Conn "A" "B" "DataInter" (LStr "y") false false].
Proof.
  split.
  - apply (connect_self_raises_else_appends "A" "A" (LStr "y") "DataInter" false false init).
    reflexivity.
  - apply (connect_self_raises_else_appends "A" "B" (LStr "y") "DataInter" false false init).
    discriminate.
Defined.

(** C10: [add_output] with a side that is neither ["left"] nor ["right"]
    returns normally and leaves the model as it was. *)
Theorem add_output_other_side_noop
    (name : string) (lbl : label) (style : string) (stack : bool) (side : string) (m : XDSM) :
  side ≠ "left" → side ≠ "right" →
  add_output name lbl style stack side m = (Ok (), m).
Proof.
  intros Hl Hr. unfold add_output. by rewrite !decide_False.
Qed.

Lemma add_output_other_side_noop_witness :
  add_output "A" (LStr "f") "DataIO" false "top" init = (Ok (), init).
Proof.
  apply (add_output_other_side_noop "A" (LStr "f") "DataIO" false "top" init); discriminate.
Defined.

(** C8: in every model a caller can arrive at, each of [ins], [left_outs]
    and [right_outs] binds a component name at most once; [add_input] binds
    the name to the new marker (an earlier marker for that name is gone),
    leaves the other names and both output dictionaries alone; [add_output]
    does the same on the dictionary of its side and leaves the other side
    and [ins] alone. *)
Theorem markers_one_per_key (m : XDSM) :
  reachable m →
  (NoDup (dict_keys (ins m)) ∧ NoDup (dict_keys (left_outs m))
   ∧ NoDup (dict_keys (right_outs m)))
  ∧ (∀ name lbl style stack,
       let m' := (add_input name lbl style stack m).2 in
       let new := Marker ("output_" +:+ name) style lbl stack in
       NoDup (dict_keys (ins m'))
       ∧ (∀ v, (name, v) ∈ ins m' ↔ v = new)
       ∧ (∀ k, k ≠ name → dict_get k (ins m') = dict_get k (ins m))
       ∧ left_outs m' = left_outs m ∧ right_outs m' = right_outs m)
  ∧ (∀ name lbl style stack,
       let m' := (add_output name lbl style stack "left" m).2 in
       let new := Marker ("left_output_" +:+ name) style lbl stack in
       NoDup (dict_keys (left_outs m'))
       ∧ (∀ v, (name, v) ∈ left_outs m' ↔ v = new)
       ∧ (∀ k, k ≠ name → dict_get k (left_outs m') = dict_get k (left_outs m))
       ∧ right_outs m' = right_outs m ∧ ins m' = ins m)
  ∧ (∀ name lbl style stack,
       let m' := (add_output name lbl style stack "right" m).2 in
       let new := Marker ("right_output_" +:+ name) style lbl stack in
       NoDup (dict_keys (right_outs m'))
       ∧ (∀ v, (name, v) ∈ right_outs m' ↔ v = new)
       ∧ (∀ k, k ≠ name → dict_get k (right_outs m') = dict_get k (right_outs m))
       ∧ left_outs m' = left_outs m ∧ ins m' = ins m).
Proof.
  intros [_ _ Hi Hl Hr]%reachable_wf.
  assert (Hset : ∀ (d : dict marker) k v, NoDup (dict_keys d) →
            ∀ v', (k, v') ∈ dict_set k v d ↔ v' = v).
  { intros d k v Hd v'. split.
    - intros Hin. apply (dict_get_elem_of _ _ _ (dict_set_NoDup k v d Hd)) in Hin.
      rewrite dict_get_set_eq in Hin. congruence.
    - intros ->. clear Hd. induction d as [|[k0 v0] d IH]; simpl; [set_solver|].
      case_decide; set_solver. }
  split_and!; [done..| | |]; intros name lbl style stack; simpl.
  - split_and!; [by apply dict_set_NoDup | by apply Hset | | done..].
    intros k Hk. by apply dict_get_set_ne.
  - split_and!; [by apply dict_set_NoDup | by apply Hset | | done..].
    intros k Hk. by apply dict_get_set_ne.
  - split_and!; [by apply dict_set_NoDup | by apply Hset | | done..].
    intros k Hk. by apply dict_get_set_ne.
Qed.

Lemma markers_one_per_key_witness :
  NoDup (dict_keys (ins (run_calls
    [CallAddInput "A" (LStr "x") "DataIO" false;
     CallAddInput "A" (LStr "z") "DataIO" true] init))).
Proof.
  apply (markers_one_per_key (run_calls
    [CallAddInput "A" (LStr "x") "DataIO" false;
     CallAddInput "A" (LStr "z") "DataIO" true] init)).
  exists true, [CallAddInput "A" (LStr "x") "DataIO" false;
          CallAddInput "A" (LStr "z") "DataIO" true].
  reflexivity.
Defined.

(** ** [write] and the file prefix *)

Section write_facts.
Variable diagram_styles_path : string.
Variable pyxdsm_version : string.
Variable world : Type.
Variable os_write_file : string → string → world → result unit * world.
Variable os_system : string → world → world.
Variable os_path_exists : string → world → bool.
Variable os_remove : string → world → result unit * world.

Local Abbreviation run_write :=
  (write diagram_styles_path pyxdsm_version world os_write_file os_system
     os_path_exists os_remove).

(** C9, as the code has it: when the prefix is left out, [write] raises
    on every model and with every choice of flags, and no file is created
    or changed (no call reaches the operating system, whatever it would have
    done); the exception is the one of the rendering methods when the
    model does not render, and otherwise the [TypeError] of adding [None]
    to [".tikz"]. *)
Theorem write_without_prefix_raises (build cleanup quiet : bool) (m : XDSM) (disk : world) :
  ∃ e, run_write None build cleanup quiet m disk = (Raise e, disk)
    ∧ (build_node_grid m = Raise e
       ∨ build_process_chain m = Raise e
       ∨ ((∃ nodes, build_node_grid m = Ok nodes)
          ∧ (∃ process, build_process_chain m = Ok process)
          ∧ e = TypeError "unsupported operand type(s) for +: 'NoneType' and 'str'")).
Proof.
  unfold write.
  destruct (build_node_grid m) as [nodes|e]; [|by exists e; split; [|left]].
  destruct (build_process_chain m) as [process|e]; [|by exists e; split; [|right; left]].
  eexists. split; [done|]. right; right. split_and!; [by eexists.. | done].
Qed.

(** With a prefix and without the typesetting step, a model that renders
    has its [.tikz] file written first, and [write] is over if that fails;
    the [.tex] file is written next unless the prefix is the empty string. *)
Lemma write_with_prefix (file_name : string) (cleanup quiet : bool) (m : XDSM)
    (disk : world) (nodes process : string) :
  build_node_grid m = Ok nodes → build_process_chain m = Ok process →
  run_write (Some file_name) false cleanup quiet m disk
  = match os_write_file (file_name +:+ ".tikz")
            (tikzpicture_template nodes (build_edges m) process diagram_styles_path
               (_compose_optional_package_list m)) disk with
    | (Raise e, disk) => (Raise e, disk)
    | (Ok _, disk) =>
        if bool_decide (file_name ≠ "") then
          os_write_file (file_name +:+ ".tex")
            (tex_template (file_name +:+ ".tikz") (_compose_optional_package_list m)
               pyxdsm_version) disk
        else (Ok (), disk)
    end.
Proof.
  intros Hn Hp. unfold write. rewrite Hn, Hp.
  destruct (os_write_file _ _ disk) as [[[]|e] disk1]; [|done].
  case_bool_decide; [|done].
  by destruct (os_write_file _ _ disk1) as [[[]|e] disk2].
Qed.
End write_facts.

(** The default call [write()] on a model with one component, in a world
    that keeps the paths written and where no call fails: nothing is
    written. *)
Example write_default_call_raises :
  write "pyxdsm/diagram_styles" "1.0.0" (list string)
    (λ path _ disk, (Ok (), path :: disk)) (λ _ disk, disk)
    (λ path disk, bool_decide (path ∈ disk)) (λ path disk, (Ok (), filter (λ p, p ≠ path) disk))
    None true true false
    (run_calls [CallAddSystem "A" "Analysis" (LStr "A") false false None] init) []
  = (Raise (TypeError "unsupported operand type(s) for +: 'NoneType' and 'str'"), []).
Proof. done. Qed.

(** ** One component with one input *)

(** C5, amended: for one component [A] with one input labelled [z], the grid
    is 2 by 2 with the input marker at (0,0), [A] at (1,0) and the two other
    cells empty, and the only edge is the vertical edge from [A] to the
    marker's node, which is named after the component: [output_A]. *)
Theorem one_input_grid_and_edge (style : string) (lbl : label) (stack faded : bool)
    (text_width : option string) (in_style : string) (in_stack : bool) :
  let m := one_input_model style lbl stack faded text_width in_style in_stack in
  node_grid m
  = Ok [[marker_node (Marker "output_A" in_style (LStr "z") in_stack); ""];
        [comp_node (Comp "A" style lbl stack faded text_width); ""]]
  ∧ h_edges m = []
  ∧ v_edges m = ["(A) edge [DataLine] (output_A)"].
Proof. done. Qed.

(** C5 as stated fails: no node is called [output_z], so no edge of the
    edge list ends there. *)
Lemma one_input_no_edge_to_label :
  ¬ one_input_scenario_as_stated
      (one_input_model "Analysis" (LStr "A") false false None "DataIO" false).
Proof.
  intros [_ [Hin|Hsub]].
  - vm_compute in Hin. apply list_elem_of_singleton in Hin. discriminate.
  - vm_compute in Hsub. discriminate.
Qed.

(** ** The process chain in closed form *)

Lemma str_app_assoc (s1 s2 s3 : string) : (s1 +:+ s2) +:+ s3 = s1 +:+ (s2 +:+ s3).
Proof.
  induction s1 as [|a s1 IH]; [done|].
  change (String a ((s1 +:+ s2) +:+ s3) = String a (s1 +:+ s2 +:+ s3)). by f_equal.
Qed.

Lemma str_app_empty_r (s : string) : s +:+ "" = s.
Proof.
  induction s as [|a s IH]; [done|].
  change (String a (s +:+ "") = String a s). by f_equal.
Qed.

Lemma find_app_first {A : Type} (f : A → bool) (l1 l2 : list A) :
  find f (l1 ++ l2) = match find f l1 with Some x => Some x | None => find f l2 end.
Proof. induction l1 as [|x l1 IH]; simpl; [done|]. by destruct (f x). Qed.

Section chain.
Variables sysn outn : list string.

(** The inner loop past the first entry: [start_tip] no longer changes. *)
Lemma chain_steps_tail (arrow t : bool) (l : list string) (k : nat) (s : string) :
  1 ≤ k →
  foldM (chain_step sysn outn arrow) (zip (seq k (length l)) l) (s, t)
  = match find (unresolved sysn outn) l with
    | Some sys => raise_unresolved sys
    | None =>
        Ok (s +:+ concat_str
              ((λ x : nat * string,
                  chainin_join x.2 (join_style arrow (name_in x.2 outn || ((x.1 =? 1) && t))))
               <$> zip (seq k (length l)) l), t)
    end.
Proof.
  revert k s. induction l as [|sys l IH]; intros k s Hk; simpl.
  - by rewrite str_app_empty_r.
  - unfold unresolved at 1. destruct (negb (name_in sys sysn) && negb (name_in sys outn)) eqn:Hu.
    { done. }
    assert ((k =? 0) = false) as -> by (apply Nat.eqb_neq; lia).
    rewrite andb_false_r.
    destruct (name_in sys outn || (k =? 1) && t) eqn:Htip, arrow; simpl;
      rewrite IH by lia; destruct (find _ l); try done;
      by rewrite str_app_assoc.
Qed.

(** The inner loop on a whole sequence. *)
Lemma chain_steps (arrow : bool) (proc : list string) (s : string) :
  foldM (chain_step sysn outn arrow) (enumerate proc) (s, false)
  = match find (unresolved sysn outn) proc with
    | Some sys => raise_unresolved sys
    | None =>
        Ok (s +:+ concat_str (entry_str (tip_by_target outn) arrow proc <$> enumerate proc),
            starts_at_marker outn proc)
    end.
Proof.
  unfold enumerate. destruct proc as [|first l]; simpl.
  - by rewrite str_app_empty_r.
  - unfold unresolved at 1.
    destruct (negb (name_in first sysn) && negb (name_in first outn)) eqn:Hu; [done|].
    simpl. rewrite andb_true_r.
    assert ((if name_in first outn then true else false) = name_in first outn) as ->
      by by destruct (name_in first outn).
    rewrite chain_steps_tail by lia.
    destruct (find _ l); [done|]. rewrite str_app_assoc. do 2 f_equal.
    change (entry_str (tip_by_target outn) arrow (first :: l) (0, first))
      with (chainin first).
    do 3 f_equal. apply list_fmap_ext. intros i [j sys] Hi. unfold entry_str, tip_by_target. simpl.
    apply lookup_zip_with_Some in Hi as (a & b & [= <- <-] & Ha & Hb).
    apply lookup_seq in Ha as [-> _]. done.
Qed.

(** The outer loop. *)
Lemma chain_procs (ps : list (list string * bool)) (s : string) :
  foldM (chain_proc sysn outn) ps s
  = match find (unresolved sysn outn) (concat ps.*1) with
    | Some sys => raise_unresolved sys
    | None => Ok (s +:+ concat_str (proc_str (tip_by_target outn) <$> ps))
    end.
Proof.
  revert s. induction ps as [|[proc arrow] ps IH]; intros s; simpl.
  - by rewrite str_app_empty_r.
  - rewrite find_app_first, chain_steps.
    destruct (find _ proc); [done|]. simpl. rewrite IH.
    destruct (find _ (concat _)); [done|].
    unfold proc_str. simpl. by rewrite !str_app_assoc.
Qed.
End chain.

Lemma zip_fst_same_length {A B : Type} (l : list A) (k : list B) :
  length l = length k → (zip l k).*1 = l.
Proof. intros H. apply fst_zip. lia. Qed.

(** [_build_process_chain] on a model whose processes all have their arrow
    flag: the first unresolved entry decides. *)
Lemma build_process_chain_closed (m : XDSM) :
  length (processes m) = length (process_arrows m) →
  build_process_chain m
  = match find (unresolved (sys_names m) (output_names m)) (concat (processes m)) with
    | Some sys => raise_unresolved sys
    | None =>
        Ok (concat_str (proc_str (tip_by_target (output_names m))
                          <$> zip (processes m) (process_arrows m)))
    end.
Proof.
  intros Hlen. unfold build_process_chain. rewrite chain_procs.
  by rewrite zip_fst_same_length.
Qed.

Lemma unresolved_true (sysn outn : list string) (sys : string) :
  unresolved sysn outn sys = true ↔ (sys ∉ sysn) ∧ (sys ∉ outn).
Proof.
  unfold unresolved, name_in. rewrite andb_true_iff, !negb_true_iff, !bool_decide_eq_false.
  done.
Qed.

Lemma elem_of_concat_procs (sys : string) (ps : list (list string)) :
  sys ∈ concat ps ↔ ∃ proc, proc ∈ ps ∧ sys ∈ proc.
Proof.
  induction ps as [|p ps IH]; simpl.
  - split; [by intros H%elem_of_nil | by intros (proc & H%elem_of_nil & _)].
  - rewrite elem_of_app, IH. split.
    + intros [H|(proc & Hp & Hs)].
      * exists p. split; [apply list_elem_of_here | done].
      * exists proc. split; [by apply list_elem_of_further | done].
    + intros (proc & [->|Hp]%elem_of_cons & Hs); [by left | right; by exists proc].
Qed.

(** C4: on a model a caller can arrive at, if some entry of some declared
    process is neither a component name nor the node name of a declared
    marker, [_build_process_chain] raises the [ValueError] whose message
    quotes such an entry (the first one met, process by process and entry by
    entry); if every entry resolves, it returns a string. *)
Theorem process_chain_unresolved_name (m : XDSM) :
  reachable m →
  ((∃ proc sys, proc ∈ processes m ∧ sys ∈ proc
       ∧ (sys ∉ sys_names m) ∧ (sys ∉ output_names m)) →
   ∃ sys, (∃ proc, proc ∈ processes m ∧ sys ∈ proc)
     ∧ (sys ∉ sys_names m) ∧ (sys ∉ output_names m)
     ∧ find (unresolved (sys_names m) (output_names m)) (concat (processes m)) = Some sys
     ∧ build_process_chain m
       = Raise (ValueError ("process includes a system named " +:+ dquote +:+ sys
                            +:+ dquote +:+ " but no system with that name exists.")))
  ∧ ((∀ proc sys, proc ∈ processes m → sys ∈ proc →
        sys ∈ sys_names m ∨ sys ∈ output_names m) →
     ∃ s, build_process_chain m = Ok s).
Proof.
  intros Hm%reachable_wf. rewrite (build_process_chain_closed m (wf_arrows m Hm)).
  destruct (find _ _) as [sys|] eqn:Hfind.
  - apply find_some in Hfind as Hsys. destruct Hsys as [Hin [Hs Ho]%unresolved_true].
    apply list_elem_of_In, elem_of_concat_procs in Hin.
    split.
    + intros _. by exists sys.
    + intros Hall. destruct Hin as (proc & Hp & Hsp).
      destruct (Hall proc sys Hp Hsp); done.
  - split; [|by eexists].
    intros (proc & sys & Hp & Hsp & Hs & Ho). exfalso.
    assert (unresolved (sys_names m) (output_names m) sys = false) as Hf.
    { apply (find_none _ _ Hfind). apply list_elem_of_In, elem_of_concat_procs. by exists proc. }
    assert (unresolved (sys_names m) (output_names m) sys = true) as Ht
      by by apply unresolved_true.
    congruence.
Qed.

Lemma process_chain_unresolved_name_witness :
  reachable dangling_process_model
  ∧ ∃ sys, build_process_chain dangling_process_model
           = Raise (ValueError ("process includes a system named " +:+ dquote +:+ sys
                                +:+ dquote +:+ " but no system with that name exists.")).
Proof.
  assert (reachable dangling_process_model) as Hr by (do 2 eexists; reflexivity).
  split; [exact Hr|].
  destruct (proj1 (process_chain_unresolved_name dangling_process_model Hr))
    as (sys & _ & _ & _ & _ & Hraise).
  - exists ["A"; "B"], "B". vm_compute. split_and!.
    + apply list_elem_of_here.
    + apply list_elem_of_further, list_elem_of_here.
    + intros H. apply list_elem_of_singleton in H. discriminate.
    + intros H. by apply elem_of_nil in H.
  - by exists sys.
Defined.

(** C6, amended: on a model a caller can arrive at whose process entries all
    resolve, [_build_process_chain] returns one block per process; in a
    block the first entry is chained in without a join and every later
    entry with a join whose style is the tip style exactly when that entry
    itself (the link's target) is a marker node name, or it is the second
    entry and the first entry is a marker node name, and the
    horizontal-then-vertical style otherwise; the arrow flag of the process
    picks the arrowed or the plain variant for all its links. *)
Theorem process_links_tip_by_target (m : XDSM) :
  reachable m →
  (∀ proc sys, proc ∈ processes m → sys ∈ proc →
     sys ∈ sys_names m ∨ sys ∈ output_names m) →
  build_process_chain m
  = Ok (concat_str (proc_str (tip_by_target (output_names m))
                      <$> zip (processes m) (process_arrows m)))
  ∧ (∀ proc i sys,
       tip_by_target (output_names m) proc i sys = true
       ↔ sys ∈ output_names m
         ∨ (i = 1 ∧ ∃ first, proc !! 0 = Some first ∧ first ∈ output_names m))
  ∧ (∀ arrow, join_style arrow true = (if arrow then "ProcessTipA" else "ProcessTip")
            ∧ join_style arrow false = (if arrow then "ProcessHVA" else "ProcessHV")).
Proof.
  intros Hm%reachable_wf Hall. split_and!.
  - rewrite (build_process_chain_closed m (wf_arrows m Hm)).
    destruct (find _ _) as [sys|] eqn:Hfind; [|done].
    apply find_some in Hfind as [Hin [Hs Ho]%unresolved_true].
    apply list_elem_of_In, elem_of_concat_procs in Hin as (proc & Hp & Hsp).
    destruct (Hall proc sys Hp Hsp); done.
  - intros proc i sys. unfold tip_by_target, starts_at_marker, name_in.
    rewrite orb_true_iff, andb_true_iff, bool_decide_eq_true, Nat.eqb_eq.
    destruct proc as [|first l]; simpl.
    + split; [intros [?|[_ ?]]; [by left | done] | intros [?|(_ & ? & ? & _)]; [by left | done]].
    + rewrite bool_decide_eq_true. split.
      * intros [?|[-> ?]]; [by left | right; split; [done | by exists first]].
      * intros [?|(-> & ? & [= <-] & ?)]; [by left | by right].
  - by intros [].
Qed.

Lemma process_links_tip_by_target_witness :
  build_process_chain through_marker_model
  = Ok (chain_open +:+ chainin "A" +:+ chainin_join "output_A" "ProcessTipA"
        +:+ chainin_join "B" "ProcessHVA" +:+ chain_close).
Proof.
  refine (eq_trans (proj1 (process_links_tip_by_target through_marker_model _ _)) _).
  - do 2 eexists; reflexivity.
  - intros proc sys Hp Hs. vm_compute in Hp. apply list_elem_of_singleton in Hp as ->.
    vm_compute.
    repeat (apply elem_of_cons in Hs as [->|Hs];
            [first [ left; apply list_elem_of_here
                   | left; apply list_elem_of_further, list_elem_of_here
                   | right; apply list_elem_of_here ] |]).
    by apply elem_of_nil in Hs.
  - reflexivity.
Defined.

(** C6 as stated fails: the link into [output_A] comes from the component
    [A] and is a tip join, the link out of [output_A] into [B] is not. *)
Lemma process_links_not_tip_by_source :
  build_process_chain through_marker_model
  = Ok (chain_open +:+ chainin "A" +:+ chainin_join "output_A" "ProcessTipA"
        +:+ chainin_join "B" "ProcessHVA" +:+ chain_close)
  ∧ concat_str (proc_str (tip_by_source (output_names through_marker_model))
                  <$> zip (processes through_marker_model)
                          (process_arrows through_marker_model))
    = chain_open +:+ chainin "A" +:+ chainin_join "output_A" "ProcessHVA"
      +:+ chainin_join "B" "ProcessTipA" +:+ chain_close
  ∧ build_process_chain through_marker_model
    ≠ Ok (concat_str (proc_str (tip_by_source (output_names through_marker_model))
                        <$> zip (processes through_marker_model)
                                (process_arrows through_marker_model))).
Proof. split_and!; [reflexivity | reflexivity | vm_compute; discriminate]. Qed.

(** ** Loops that may raise *)

Section foldM.
Context {A B : Type} (f : B → A → result B).

(** An invariant indexed by the number of turns done, for a loop that is
    known to return. *)
Lemma foldM_invariant (I : nat → B → Prop) (l : list A) (b b' : B) :
  I 0 b →
  (∀ i x b1 b2, l !! i = Some x → I i b1 → f b1 x = Ok b2 → I (S i) b2) →
  foldM f l b = Ok b' → I (length l) b'.
Proof.
  revert I b. induction l as [|x l IH]; intros I b H0 Hstep Hrun; simpl in *.
  - by simplify_eq.
  - destruct (f b x) as [b1|e] eqn:Hf; [|done]. simpl in Hrun.
    apply (IH (λ i, I (S i)) b1); [by eapply (Hstep 0) | | done].
    intros i y b2 b3 Hy. by apply (Hstep (S i)).
Qed.

(** The same for a loop none of whose turns raises. *)
Lemma foldM_returns (I : nat → B → Prop) (l : list A) (b : B) :
  I 0 b →
  (∀ i x b1, l !! i = Some x → I i b1 → ∃ b2, f b1 x = Ok b2 ∧ I (S i) b2) →
  ∃ b', foldM f l b = Ok b' ∧ I (length l) b'.
Proof.
  revert I b. induction l as [|x l IH]; intros I b H0 Hstep; simpl.
  - by exists b.
  - destruct (Hstep 0 x b eq_refl H0) as (b1 & -> & H1). simpl.
    apply (IH (λ i, I (S i)) b1 H1). intros i y b2 Hy. by apply (Hstep (S i)).
Qed.
End foldM.

(** ** Cells of a square grid *)

Lemma square_replicate (n : nat) : square n (replicate n (replicate n "")).
Proof.
  split; [apply length_replicate|].
  intros r row [-> _]%lookup_replicate. apply length_replicate.
Qed.

Lemma cell_replicate (n r c : nat) :
  r < n → c < n → cell (replicate n (replicate n "")) r c = Some "".
Proof.
  intros Hr Hc. unfold cell. rewrite lookup_replicate_2 by done. simpl.
  by rewrite lookup_replicate_2.
Qed.

Lemma norm_index_Ok (n : nat) (i : Z) (R : nat) :
  norm_index n i = Ok R →
  R < n ∧ ((0 ≤ i)%Z → R = Z.to_nat i) ∧ (i = (-1)%Z → R = n - 1).
Proof.
  unfold norm_index. repeat case_bool_decide; intros [= <-]; lia.
Qed.

Lemma norm_index_nonneg (n : nat) (i : nat) :
  i < n → norm_index n (Z.of_nat i) = Ok i.
Proof.
  intros Hi. unfold norm_index. rewrite bool_decide_true by lia. by rewrite Nat2Z.id.
Qed.

Lemma norm_index_last (n : nat) : 0 < n → norm_index n (-1) = Ok (n - 1).
Proof.
  intros Hn. unfold norm_index. rewrite bool_decide_false by lia.
  rewrite bool_decide_true by lia. f_equal. lia.
Qed.

(** What an assignment to a cell does when it returns. *)
Lemma grid_set_Ok (n : nat) (g g' : grid) (loc : Z * Z) (v : string) :
  square n g → grid_set g loc v = Ok g' →
  ∃ R C, norm_index n loc.1 = Ok R ∧ norm_index n loc.2 = Ok C
    ∧ square n g' ∧ cell g' R C = Some v
    ∧ ∀ r c, r ≠ R ∨ c ≠ C → cell g' r c = cell g r c.
Proof.
  intros [Hlen Hrows]. unfold grid_set. rewrite Hlen.
  destruct (norm_index n loc.1) as [R|e] eqn:HR; [simpl|done].
  destruct (g !! R) as [row|] eqn:Hrow; [|done].
  rewrite (Hrows R row Hrow).
  destruct (norm_index n loc.2) as [C|e] eqn:HC; [simpl|done].
  intros [= <-]. exists R, C.
  apply norm_index_Ok in HR as (HRn & _). apply norm_index_Ok in HC as (HCn & _).
  split_and!; try done.
  - split; [by rewrite length_insert|].
    intros r row'. destruct (decide (r = R)) as [->|Hne].
    + rewrite list_lookup_insert_eq by lia. intros [= <-].
      rewrite length_insert. by apply (Hrows R).
    + rewrite list_lookup_insert_ne by done. apply Hrows.
  - unfold cell. rewrite list_lookup_insert_eq by lia. simpl.
    apply list_lookup_insert_eq. rewrite (Hrows R row Hrow). lia.
  - intros r c Hrc. unfold cell. destruct (decide (r = R)) as [->|Hne].
    + rewrite list_lookup_insert_eq by lia. rewrite Hrow. simpl.
      destruct Hrc as [?|Hc]; [done|]. by rewrite list_lookup_insert_ne.
    + by rewrite list_lookup_insert_ne.
Qed.

(** An assignment to a cell in range returns. *)
Lemma grid_set_returns (n : nat) (g : grid) (loc : Z * Z) (v : string) (R C : nat) :
  square n g → norm_index n loc.1 = Ok R → norm_index n loc.2 = Ok C →
  ∃ g', grid_set g loc v = Ok g'.
Proof.
  intros [Hlen Hrows] HR HC. unfold grid_set. rewrite Hlen, HR. simpl.
  apply norm_index_Ok in HR as (HRn & _).
  destruct (lookup_lt_is_Some_2 g R) as [row Hrow]; [lia|].
  rewrite Hrow, (Hrows R row Hrow), HC. simpl. by eexists.
Qed.

(** An assignment at natural indices in range: it returns, the cell holds the
    new value and every other cell is as before. *)
Lemma grid_set_nat (n : nat) (g : grid) (r c : nat) (v : string) :
  square n g → r < n → c < n →
  ∃ g', grid_set g (Z.of_nat r, Z.of_nat c) v = Ok g'
    ∧ square n g' ∧ cell g' r c = Some v
    ∧ ∀ r' c', r' ≠ r ∨ c' ≠ c → cell g' r' c' = cell g r' c'.
Proof.
  intros Hsq Hr Hc.
  destruct (grid_set_returns n g (Z.of_nat r, Z.of_nat c) v r c Hsq) as [g' Hg'];
    [by apply norm_index_nonneg..|].
  exists g'. split; [done|].
  destruct (grid_set_Ok n g g' _ v Hsq Hg') as (R & C & HR & HC & Hsq' & Hcell & Hother).
  simpl in HR, HC. rewrite norm_index_nonneg in HR, HC by done. by simplify_eq.
Qed.

(** ** The diagonal loop *)

Lemma arange_lookup (n i : nat) : i < n → arange n !! i = Some (Z.of_nat i).
Proof.
  intros Hi. unfold arange. rewrite list_lookup_fmap, lookup_seq_lt; done.
Qed.

Lemma comps_rows_lookup (m : XDSM) (i : nat) :
  i < length (comps m) → comps_rows m !! i = Some (Z.of_nat (i + row_shift m)).
Proof.
  intros Hi. unfold comps_rows, row_shift. destruct (truthy (ins m)).
  - rewrite list_lookup_fmap, arange_lookup by done. simpl. f_equal. lia.
  - rewrite arange_lookup by done. f_equal. lia.
Qed.

Lemma comps_cols_lookup (m : XDSM) (i : nat) :
  i < length (comps m) → comps_cols m !! i = Some (Z.of_nat (i + col_shift m)).
Proof.
  intros Hi. unfold comps_cols, col_shift. destruct (truthy (left_outs m)).
  - rewrite list_lookup_fmap, arange_lookup by done. simpl. f_equal. lia.
  - rewrite arange_lookup by done. f_equal. lia.
Qed.

Lemma grid_size_shifts (m : XDSM) :
  grid_size m
  = length (comps m) + row_shift m + col_shift m + (if truthy (right_outs m) then 1 else 0).
Proof.
  unfold grid_size, row_shift, col_shift.
  destruct (truthy (ins m)), (truthy (left_outs m)), (truthy (right_outs m)); lia.
Qed.

Lemma placements_lookup (m : XDSM) (i : nat) (x : Z * (Z * comp)) :
  placements m !! i = Some x →
  ∃ c, comps m !! i = Some c
    ∧ x = (Z.of_nat (i + row_shift m), (Z.of_nat (i + col_shift m), c)).
Proof.
  unfold placements. intros (r & y & -> & Hr & Hy)%lookup_zip_with_Some.
  apply lookup_zip_with_Some in Hy as (j & c & -> & Hj & Hc).
  exists c. split; [done|]. apply lookup_lt_Some in Hc as Hlt.
  rewrite comps_rows_lookup in Hr by done. rewrite comps_cols_lookup in Hj by done.
  by simplify_eq.
Qed.

Lemma placements_length (m : XDSM) : length (placements m) = length (comps m).
Proof.
  unfold placements, comps_rows, comps_cols, arange.
  rewrite !length_zip_with. destruct (truthy (ins m)), (truthy (left_outs m));
    rewrite ?length_fmap, ?length_seq; lia.
Qed.

Lemma place_comps_returns (m : XDSM) :
  ∃ st, foldM place_comp (placements m)
          (replicate (grid_size m) (replicate (grid_size m) ""), ∅, ∅) = Ok st
    ∧ placed_upto m (length (comps m)) st.
Proof.
  rewrite <-placements_length. apply (foldM_returns place_comp (placed_upto m)).
  - split; simpl.
    + split_and!; [apply square_replicate | intros; lia |].
      intros r c Hr Hc _. by apply cell_replicate.
    + intros name. right. split_and!; [done..|]. intros; lia.
  - intros i x [[g rmap] cmap] Hx [(Hsq & Hdiag & Hrest) Hidx]. simpl in *.
    apply placements_lookup in Hx as (c & Hc & ->).
    apply lookup_lt_Some in Hc as Hi.
    pose proof (grid_size_shifts m) as Hsize.
    destruct (grid_set_nat (grid_size m) g (i + row_shift m) (i + col_shift m)
                (comp_node c) Hsq) as (g' & Hg' & Hsq' & Hcell & Hother); [lia..|].
    rewrite Hg'. simpl. eexists. split; [done|]. split; simpl.
    + split_and!; [done | |].
      * intros j d Hj Hd. destruct (decide (j = i)) as [->|Hne].
        { by simplify_eq. }
        rewrite Hother by lia. apply Hdiag; [lia | done].
      * intros r' c' Hr' Hc' Hfree.
        rewrite Hother by (destruct (Hfree i); lia).
        apply Hrest; [done..|]. intros j Hj. apply Hfree. lia.
    + intros name. destruct (decide (comp_name c = name)) as [<-|Hne].
      * left. exists i, c. split_and!; [lia | done.. | |]; apply lookup_insert_eq.
      * rewrite !lookup_insert_ne by done.
        destruct (Hidx name) as [(j & x & Hj & Hx & Hn & Hr & Hcl)|(Hr & Hcl & Hno)].
        { left. exists j, x. split_and!; [lia | done..]. }
        right. split_and!; [done..|]. intros j x Hj Hx.
        destruct (decide (j = i)) as [->|Hji]; [by simplify_eq|].
        apply (Hno j x); [lia | done].
Qed.

(** ** The diagonal survives the other four loops *)

Lemma idx_lookup_Ok (d : gmap string Z) (k : string) (v : Z) :
  idx_lookup d k = Ok v → d !! k = Some v.
Proof. unfold idx_lookup. destruct (d !! k); by intros [= ->]. Qed.

Lemma indexed_row (m : XDSM) (k : nat) (rmap cmap : gmap string Z) (name : string) (r : Z) :
  indexed m k rmap cmap → rmap !! name = Some r →
  ∃ j x, j < k ∧ comps m !! j = Some x ∧ comp_name x = name
    ∧ r = Z.of_nat (j + row_shift m).
Proof.
  intros Hidx Hr. destruct (Hidx name) as [(j & x & Hj & Hx & Hn & Hr' & _)|(Hr' & _)];
    [|congruence].
  exists j, x. split_and!; [done..|congruence].
Qed.

Lemma indexed_col (m : XDSM) (k : nat) (rmap cmap : gmap string Z) (name : string) (c : Z) :
  indexed m k rmap cmap → cmap !! name = Some c →
  ∃ j x, j < k ∧ comps m !! j = Some x ∧ comp_name x = name
    ∧ c = Z.of_nat (j + col_shift m).
Proof.
  intros Hidx Hc. destruct (Hidx name) as [(j & x & Hj & Hx & Hn & _ & Hc')|(_ & Hc' & _)];
    [|congruence].
  exists j, x. split_and!; [done..|congruence].
Qed.

(** An assignment away from the diagonal keeps the diagonal. *)
Lemma grid_set_off_diagonal (m : XDSM) (g g' : grid) (loc : Z * Z) (v : string) :
  diagonal m g → grid_set g loc v = Ok g' →
  (∀ R C i, norm_index (grid_size m) loc.1 = Ok R →
            norm_index (grid_size m) loc.2 = Ok C →
            i < length (comps m) → R ≠ i + row_shift m ∨ C ≠ i + col_shift m) →
  diagonal m g'.
Proof.
  intros [Hsq Hdiag] Hset Hoff.
  destruct (grid_set_Ok _ g g' loc v Hsq Hset) as (R & C & HR & HC & Hsq' & _ & Hother).
  split; [done|]. intros i c Hc. apply lookup_lt_Some in Hc as Hi.
  rewrite Hother; [by apply Hdiag|].
  destruct (Hoff R C i HR HC Hi); [left|right]; lia.
Qed.

Lemma truthy_elem_of {A : Type} (x : A) (l : list A) : x ∈ l → truthy l = true.
Proof. destruct l; [by intros ?%elem_of_nil | done]. Qed.

Lemma place_conn_diagonal (m : XDSM) (rmap cmap : gmap string Z) (g g' : grid) (c : conn) :
  indexed m (length (comps m)) rmap cmap → conn_src c ≠ conn_target c →
  diagonal m g → place_conn rmap cmap g c = Ok g' → diagonal m g'.
Proof.
  intros Hidx Hne Hg. unfold place_conn.
  destruct (idx_lookup rmap (conn_src c)) as [r|] eqn:Hr; [simpl|done].
  destruct (idx_lookup cmap (conn_target c)) as [t|] eqn:Ht; [simpl|done].
  intros Hset. apply (grid_set_off_diagonal m g g' _ _ Hg Hset). simpl.
  intros R C i HR HC Hi.
  apply idx_lookup_Ok in Hr, Ht.
  destruct (indexed_row _ _ _ _ _ _ Hidx Hr) as (j1 & x1 & _ & Hx1 & Hn1 & ->).
  destruct (indexed_col _ _ _ _ _ _ Hidx Ht) as (j2 & x2 & _ & Hx2 & Hn2 & ->).
  apply norm_index_Ok in HR as (_ & HR & _). apply norm_index_Ok in HC as (_ & HC & _).
  rewrite HR, HC, !Nat2Z.id by lia.
  destruct (decide (j1 = j2)) as [->|Hj]; [|lia].
  simplify_eq. congruence.
Qed.

Lemma place_left_out_diagonal (m : XDSM) (rmap : gmap string Z) (g g' : grid)
    (x : string * marker) :
  x ∈ left_outs m → diagonal m g → place_left_out rmap g x = Ok g' → diagonal m g'.
Proof.
  intros Hx Hg. unfold place_left_out.
  destruct (idx_lookup rmap x.1) as [r|]; [simpl|done].
  intros Hset. apply (grid_set_off_diagonal m g g' _ _ Hg Hset). simpl.
  intros R C i _ HC _. right.
  apply norm_index_Ok in HC as (_ & -> & _); [|lia].
  unfold col_shift. rewrite (truthy_elem_of _ _ Hx). simpl. lia.
Qed.

Lemma place_right_out_diagonal (m : XDSM) (rmap : gmap string Z) (g g' : grid)
    (x : string * marker) :
  x ∈ right_outs m → diagonal m g → place_right_out rmap g x = Ok g' → diagonal m g'.
Proof.
  intros Hx Hg. unfold place_right_out.
  destruct (idx_lookup rmap x.1) as [r|]; [simpl|done].
  intros Hset. apply (grid_set_off_diagonal m g g' _ _ Hg Hset). simpl.
  intros R C i _ HC Hi. right.
  apply norm_index_Ok in HC as (_ & _ & ->); [|done].
  rewrite grid_size_shifts, (truthy_elem_of _ _ Hx). lia.
Qed.

Lemma place_in_diagonal (m : XDSM) (cmap : gmap string Z) (g g' : grid)
    (x : string * marker) :
  x ∈ ins m → diagonal m g → place_in cmap g x = Ok g' → diagonal m g'.
Proof.
  intros Hx Hg. unfold place_in.
  destruct (idx_lookup cmap x.1) as [c|]; [simpl|done].
  intros Hset. apply (grid_set_off_diagonal m g g' _ _ Hg Hset). simpl.
  intros R C i HR _ _. left.
  apply norm_index_Ok in HR as (_ & -> & _); [|lia].
  unfold row_shift. rewrite (truthy_elem_of _ _ Hx). simpl. lia.
Qed.

(** Whenever [_build_node_grid] gets as far as a grid, the grid is square of
    the computed size and the components sit on the shifted diagonal. *)
Lemma node_grid_diagonal (m : XDSM) (g : grid) :
  (∀ c, c ∈ connections m → conn_src c ≠ conn_target c) →
  node_grid m = Ok g → diagonal m g.
Proof.
  intros Hconn. unfold node_grid. fold (placements m).
  destruct (place_comps_returns m) as ([[g0 rmap] cmap] & -> & [Hd0 Hidx]). simpl in *.
  assert (diagonal m g0) as Hg0.
  { destruct Hd0 as (Hsq & Hdiag & _). split; [done|]. intros i c Hc.
    apply Hdiag; [by eapply lookup_lt_Some | done]. }
  destruct (foldM (place_conn rmap cmap) _ g0) as [g1|] eqn:H1; [simpl|done].
  destruct (foldM (place_left_out rmap) _ g1) as [g2|] eqn:H2; [simpl|done].
  destruct (foldM (place_right_out rmap) _ g2) as [g3|] eqn:H3; [simpl|done].
  intros H4.
  apply (foldM_invariant _ (λ _, diagonal m) _ _ _ Hg0) in H1 as Hg1.
  2: { intros i x b1 b2 Hx Hb. apply place_conn_diagonal; [done | | done].
       apply Hconn. by eapply list_elem_of_lookup_2. }
  apply (foldM_invariant _ (λ _, diagonal m) _ _ _ Hg1) in H2 as Hg2.
  2: { intros i x b1 b2 Hx Hb. apply place_left_out_diagonal; [|done].
       by eapply list_elem_of_lookup_2. }
  apply (foldM_invariant _ (λ _, diagonal m) _ _ _ Hg2) in H3 as Hg3.
  2: { intros i x b1 b2 Hx Hb. apply place_right_out_diagonal; [|done].
       by eapply list_elem_of_lookup_2. }
  apply (foldM_invariant _ (λ _, diagonal m) _ _ _ Hg3) in H4 as Hg4; [done|].
  intros i x b1 b2 Hx Hb. apply place_in_diagonal; [|done].
  by eapply list_elem_of_lookup_2.
Qed.

(** ** Input markers and the row of a component *)

Lemma truthy_nonempty {A : Type} (l : list A) : l ≠ [] → truthy l = true.
Proof. by destruct l. Qed.

(** C2: when at least one input marker is declared, however many, the grid
    size [_build_node_grid] computes is one more than for the same model
    without input markers, every entry of [comps_rows] is one more and
    [comps_cols] is the same; and whenever the grids are produced, the one
    with inputs has one more row and holds each component one row further
    down, in the same column. *)
Theorem input_markers_shift_rows_by_one (m : XDSM) :
  reachable m → ins m ≠ [] →
  let m0 := set_ins [] m in
  grid_size m = grid_size m0 + 1
  ∧ comps_rows m = (λ i, (i + 1)%Z) <$> comps_rows m0
  ∧ comps_cols m = comps_cols m0
  ∧ (∀ g, node_grid m = Ok g →
       length g = grid_size m0 + 1
       ∧ ∀ i c, comps m !! i = Some c →
           cell g (i + 1) (i + col_shift m) = Some (comp_node c))
  ∧ (∀ g0, node_grid m0 = Ok g0 →
       length g0 = grid_size m0
       ∧ ∀ i c, comps m !! i = Some c →
           cell g0 i (i + col_shift m) = Some (comp_node c)).
Proof.
  intros Hm%reachable_wf Hins. simpl.
  pose proof (truthy_nonempty _ Hins) as Ht.
  assert (grid_size m = grid_size (set_ins [] m) + 1) as Hsize.
  { unfold grid_size. simpl. rewrite Ht.
    destruct (truthy (left_outs m)), (truthy (right_outs m)); lia. }
  split_and!.
  - done.
  - unfold comps_rows. simpl. by rewrite Ht.
  - done.
  - intros g Hg. apply node_grid_diagonal in Hg as [[Hlen _] Hdiag]; [|apply Hm].
    split; [congruence|]. intros i c Hc.
    specialize (Hdiag i c Hc). unfold row_shift in Hdiag. by rewrite Ht in Hdiag.
  - intros g0 Hg0. apply node_grid_diagonal in Hg0 as [[Hlen _] Hdiag]; [|apply Hm].
    split; [done|]. intros i c Hc.
    specialize (Hdiag i c Hc). unfold row_shift in Hdiag. simpl in Hdiag.
    by rewrite Nat.add_0_r in Hdiag.
Qed.

Lemma input_markers_shift_rows_by_one_witness :
  reachable two_inputs_model ∧ ins two_inputs_model ≠ []
  ∧ grid_size two_inputs_model = grid_size (set_ins [] two_inputs_model) + 1.
Proof.
  assert (reachable two_inputs_model) as Hr by (do 2 eexists; reflexivity).
  assert (ins two_inputs_model ≠ []) as Hi by (vm_compute; discriminate).
  split_and!; [exact Hr | exact Hi |].
  exact (proj1 (input_markers_shift_rows_by_one two_inputs_model Hr Hi)).
Defined.

(** ** Components only: the N-by-N grid *)

Lemma no_markers_shifts (m : XDSM) :
  no_markers m → row_shift m = 0 ∧ col_shift m = 0 ∧ grid_size m = length (comps m).
Proof.
  intros (Hi & Hl & Hr). unfold row_shift, col_shift, grid_size.
  rewrite Hi, Hl, Hr. simpl. done.
Qed.

(** A declared name is bound in both index maps once the diagonal loop is
    through. *)
Lemma indexed_declared (m : XDSM) (rmap cmap : gmap string Z) (name : string) :
  indexed m (length (comps m)) rmap cmap → name ∈ sys_names m →
  ∃ j x, comps m !! j = Some x ∧ comp_name x = name
    ∧ rmap !! name = Some (Z.of_nat (j + row_shift m))
    ∧ cmap !! name = Some (Z.of_nat (j + col_shift m)).
Proof.
  intros Hidx Hin. destruct (Hidx name) as [(j & x & _ & Hx & Hn & Hr & Hc)|(_ & _ & Hno)].
  - by exists j, x.
  - unfold sys_names in Hin. apply list_elem_of_fmap in Hin as (x & -> & Hx).
    apply list_elem_of_lookup in Hx as [j Hj]. exfalso.
    apply (Hno j x); [by eapply lookup_lt_Some | done..].
Qed.

Lemma place_conns_returns (m : XDSM) (rmap cmap : gmap string Z) (g0 : grid) :
  no_markers m → endpoints_declared m →
  (∀ c, c ∈ connections m → conn_src c ≠ conn_target c) →
  indexed m (length (comps m)) rmap cmap →
  diagonal_upto m (length (comps m)) g0 →
  ∃ g, foldM (place_conn rmap cmap) (connections m) g0 = Ok g ∧ diagonal_grid m g.
Proof.
  intros Hnm Hdecl Hne Hidx (Hsq0 & Hdiag0 & Hrest0).
  destruct (no_markers_shifts m Hnm) as (Hrs & Hcs & Hsize).
  rewrite Hrs, Hcs, Hsize in *.
  set (I := λ (_ : nat) (g : grid),
    square (length (comps m)) g ∧ diagonal_grid m g).
  destruct (foldM_returns (place_conn rmap cmap) I (connections m) g0) as (g & Hg & _ & Hfin).
  - split; [done|]. destruct Hsq0 as [Hlen Hrows]. split_and!; [done..| |].
    + intros i c Hc. specialize (Hdiag0 i c). rewrite !Nat.add_0_r in Hdiag0.
      apply Hdiag0; [by eapply lookup_lt_Some | done].
    + intros r c Hr Hc Hrc. left. apply Hrest0; [done..|]. intros i _. lia.
  - intros i cn g1 Hcn [Hsq (Hlen & Hrows & Hdiag & Hoff)].
    apply list_elem_of_lookup_2 in Hcn.
    destruct (Hdecl cn Hcn) as [Hs Ht].
    destruct (indexed_declared m rmap cmap _ Hidx Hs) as (j1 & x1 & Hx1 & Hn1 & Hr1 & _).
    destruct (indexed_declared m rmap cmap _ Hidx Ht) as (j2 & x2 & Hx2 & Hn2 & _ & Hc2).
    rewrite Hrs in Hr1. rewrite Hcs in Hc2. rewrite Nat.add_0_r in Hr1, Hc2.
    assert (j1 ≠ j2) as Hj.
    { intros ->. apply (Hne cn Hcn). simplify_eq. congruence. }
    apply lookup_lt_Some in Hx1 as Hj1. apply lookup_lt_Some in Hx2 as Hj2.
    destruct (grid_set_nat _ g1 j1 j2 (conn_node cn) Hsq Hj1 Hj2)
      as (g2 & Hset & Hsq2 & Hcell & Hother).
    exists g2. unfold place_conn, idx_lookup. rewrite Hr1, Hc2. simpl.
    split; [done|]. split; [done|]. destruct Hsq2 as [Hlen2 Hrows2].
    split_and!; [done..| |].
    + intros k c Hk. rewrite Hother by lia. by apply Hdiag.
    + intros r c Hr Hc Hrc.
      destruct (decide (r = j1 ∧ c = j2)) as [[-> ->]|Hnot].
      * right. by exists cn, x1, x2.
      * rewrite Hother by lia. by apply Hoff.
  - by exists g.
Qed.

(** C1, amended: on a model a caller can arrive at that has N components, no
    input or output markers and only connections between declared
    components, [_build_node_grid] builds an N-by-N grid that holds the node
    of the i-th declared component at (i, i) and, off the diagonal, nothing
    but empty cells and connection nodes, each at the row of its source and
    the column of its target; the string returned is that grid row by
    row. *)
Theorem no_markers_grid_is_diagonal (m : XDSM) :
  reachable m → no_markers m → endpoints_declared m →
  ∃ g, node_grid m = Ok g ∧ build_node_grid m = Ok (rows_str g) ∧ diagonal_grid m g.
Proof.
  intros Hm%reachable_wf Hnm Hdecl.
  destruct (place_comps_returns m) as ([[g0 rmap] cmap] & Hrun & [Hd0 Hidx]). simpl in *.
  destruct (place_conns_returns m rmap cmap g0 Hnm Hdecl (wf_conn m Hm) Hidx Hd0)
    as (g & Hg & Hgrid).
  assert (node_grid m = Ok g) as Hnode.
  { unfold node_grid. fold (placements m). rewrite Hrun. simpl. rewrite Hg. simpl.
    destruct Hnm as (-> & -> & ->). done. }
  exists g. split_and!; [done | | done].
  unfold build_node_grid. by rewrite Hnode.
Qed.

Lemma no_markers_grid_is_diagonal_witness :
  ∃ g, node_grid two_connected_model = Ok g
    ∧ build_node_grid two_connected_model = Ok (rows_str g)
    ∧ diagonal_grid two_connected_model g.
Proof.
  apply (no_markers_grid_is_diagonal two_connected_model).
  - do 2 eexists; reflexivity.
  - by split_and!.
  - intros cn Hcn. vm_compute in Hcn. apply list_elem_of_singleton in Hcn as ->.
    vm_compute. split.
    + apply list_elem_of_here.
    + apply list_elem_of_further, list_elem_of_here.
Defined.

(** C1 as stated fails: with a connection to an undeclared name and no
    markers at all, the lookup of the target's column raises and no grid is
    produced. *)
Lemma no_markers_grid_dangling_connection :
  reachable dangling_connection_model
  ∧ no_markers dangling_connection_model
  ∧ length (comps dangling_connection_model) = 1
  ∧ build_node_grid dangling_connection_model = Raise (KeyError "B")
  ∧ ¬ ∃ g, node_grid dangling_connection_model = Ok g
           ∧ diagonal_grid dangling_connection_model g.
Proof.
  split_and!; [by do 2 eexists | by split_and! | done | done |].
  intros (g & Hg & _). vm_compute in Hg. discriminate.
Qed.

(** ** Connections to names that were never declared *)

Lemma foldM_Ok_steps {A B : Type} (f : B → A → result B) (l : list A) (b b' : B) (x : A) :
  foldM f l b = Ok b' → x ∈ l → ∃ b1 b2, f b1 x = Ok b2.
Proof.
  revert b. induction l as [|y l IH]; intros b Hrun Hx; simpl in *.
  - by apply elem_of_nil in Hx.
  - destruct (f b y) as [b1|e] eqn:Hf; [simpl in Hrun|done].
    apply elem_of_cons in Hx as [->|Hx]; [by exists b, b1 | by apply (IH b1)].
Qed.

(** A connection whose source or target is not a component name makes
    [_build_node_grid] raise, markers or not: the condition on the endpoints
    in [no_markers_grid_is_diagonal] cannot be dropped. *)
Lemma node_grid_dangling_raises (m : XDSM) (cn : conn) :
  cn ∈ connections m →
  conn_src cn ∉ sys_names m ∨ conn_target cn ∉ sys_names m →
  ∃ e, node_grid m = Raise e ∧ build_node_grid m = Raise e.
Proof.
  intros Hcn Hdangling.
  destruct (node_grid m) as [g|e] eqn:Hg; [exfalso | exists e; split; [done|]].
  - revert Hg. unfold node_grid. fold (placements m).
    destruct (place_comps_returns m) as ([[g0 rmap] cmap] & -> & [_ Hidx]). simpl in *.
    destruct (foldM (place_conn rmap cmap) _ g0) as [g1|] eqn:H1; [simpl|done].
    intros _.
    destruct (foldM_Ok_steps _ _ _ _ cn H1 Hcn) as (b1 & b2 & Hstep).
    unfold place_conn in Hstep.
    destruct (idx_lookup rmap (conn_src cn)) as [r|] eqn:Hr; [simpl in Hstep|done].
    destruct (idx_lookup cmap (conn_target cn)) as [t|] eqn:Ht; [|done].
    apply idx_lookup_Ok in Hr, Ht.
    destruct (indexed_row _ _ _ _ _ _ Hidx Hr) as (j1 & x1 & _ & Hx1 & Hn1 & _).
    destruct (indexed_col _ _ _ _ _ _ Hidx Ht) as (j2 & x2 & _ & Hx2 & Hn2 & _).
    unfold sys_names in Hdangling.
    destruct Hdangling as [Hd|Hd]; apply Hd, list_elem_of_fmap.
    + exists x1. split; [done | by eapply list_elem_of_lookup_2].
    + exists x2. split; [done | by eapply list_elem_of_lookup_2].
  - unfold build_node_grid. by rewrite Hg.
Qed.

(** ** The scenarios of the specification, run *)

(** Components [A] and [B] with the connection from [A] to [B] labelled
    [y]: the grid and the two edges. *)
Example two_connected_grid :
  node_grid two_connected_model
  = Ok [["\node [Analysis] (A) {$A$};"; "\node [DataInter] (A-B) {$y$};"];
        [""; "\node [Analysis] (B) {$B$};"]]
  ∧ h_edges two_connected_model = ["(A) edge [DataLine] (A-B)"]
  ∧ v_edges two_connected_model = ["(A-B) edge [DataLine] (B)"].
Proof. done. Qed.

(** Two inputs declared for the same component: the second replaces the
    first where it stands. *)
Example add_input_twice :
  ins (run_calls [CallAddInput "A" (LStr "x") "DataIO" false;
                  CallAddInput "B" (LStr "w") "DataIO" false;
                  CallAddInput "A" (LStr "z") "DataIO" true] init)
  = [("A", Marker "output_A" "DataIO" (LStr "z") true);
     ("B", Marker "output_B" "DataIO" (LStr "w") false)].
Proof. done. Qed.

(** An input declared under the name [z], which no component has: the grid
    cannot be built. *)
Example input_for_undeclared_name :
  build_node_grid
    (run_calls [CallAddSystem "A" "Analysis" (LStr "A") false false None;
                CallAddInput "z" (LStr "z") "DataIO" false] init)
  = Raise (KeyError "z").
Proof. done. Qed.

(** The process [A], [B] with arrows: [B] is joined by the arrowed
    horizontal-then-vertical style. *)
Example process_two_components :
  build_process_chain
    (run_calls [CallAddSystem "A" "Analysis" (LStr "A") false false None;
                CallAddSystem "B" "Analysis" (LStr "B") false false None;
                CallAddProcess ["A"; "B"] true] init)
  = Ok (chain_open +:+ chainin "A" +:+ chainin_join "B" "ProcessHVA" +:+ chain_close).
Proof. done. Qed.

(** * Further properties of the code *)

(** ** The constructor and its keywords *)

Lemma update_kwargs_known (kwargs self_kwargs : dict bool) :
  dict_keys self_kwargs = ["use_sfmath"] →
  (∀ key, key ∈ dict_keys kwargs → key = "use_sfmath") →
  ∃ kw, update_kwargs kwargs self_kwargs = inl kw
    ∧ dict_keys kw = ["use_sfmath"]
    ∧ dict_get "use_sfmath" kw
      = match last kwargs with
        | Some x => Some x.2
        | None => dict_get "use_sfmath" self_kwargs
        end.
Proof.
  revert self_kwargs. induction kwargs as [|[key val] kwargs IH]; intros kw0 Hkeys Hall.
  - by exists kw0.
  - assert (key = "use_sfmath") as -> by (apply Hall; apply list_elem_of_here).
    cbn [update_kwargs]. rewrite Hkeys, bool_decide_true by apply list_elem_of_here.
    destruct (IH (dict_set "use_sfmath" val kw0)) as (kw & Hrun & Hk & Hget).
    + rewrite dict_set_keys, Hkeys. by rewrite bool_decide_true by apply list_elem_of_here.
    + intros k Hk. apply Hall. by apply list_elem_of_further.
    + exists kw. split_and!; [done..|]. rewrite Hget, dict_get_set_eq.
      clear. destruct kwargs as [|p l]; [done|].
      change (last (("use_sfmath", val) :: p :: l)) with (last (p :: l)).
      destruct (last (p :: l)) eqn:Hl; [done|].
      by apply last_None in Hl.
Qed.

Lemma update_kwargs_unknown (kwargs self_kwargs : dict bool) (key : string) :
  dict_keys self_kwargs = ["use_sfmath"] →
  key ∈ dict_keys kwargs → key ≠ "use_sfmath" →
  update_kwargs kwargs self_kwargs
  = inr ("Keyword " +:+ dquote +:+ "{}" +:+ dquote +:+ " not found, quitting.", (-1)%Z).
Proof.
  revert self_kwargs. induction kwargs as [|[k val] kwargs IH]; intros kw0 Hkeys Hin Hne.
  - by apply elem_of_nil in Hin.
  - cbn [update_kwargs]. rewrite Hkeys. case_bool_decide as Hk; [|done].
    apply list_elem_of_singleton in Hk as ->.
    apply IH; [|by apply elem_of_cons in Hin as [?|?] | done].
    rewrite dict_set_keys, Hkeys. by rewrite bool_decide_true by apply list_elem_of_here.
Qed.

(** The constructor accepts exactly the keyword [use_sfmath]: one unknown
    keyword among the arguments makes it print the message (which does not
    name the keyword) and exit with status -1, wherever it stands; without
    unknown keywords the model is empty and carries the flag given, or
    [True] when none is. *)
Theorem init_accepts_only_use_sfmath (kwargs : dict bool) :
  ((∃ key, key ∈ dict_keys kwargs ∧ key ≠ "use_sfmath") →
   __init__ kwargs
   = Exited ("Keyword " +:+ dquote +:+ "{}" +:+ dquote +:+ " not found, quitting.") (-1))
  ∧ ((∀ key, key ∈ dict_keys kwargs → key = "use_sfmath") →
     __init__ kwargs
     = Started (new (match last kwargs with Some x => x.2 | None => true end))).
Proof.
  unfold __init__. split.
  - intros (key & Hin & Hne).
    by rewrite (update_kwargs_unknown kwargs _get_default_kwargs key eq_refl Hin Hne).
  - intros Hall.
    destruct (update_kwargs_known kwargs _get_default_kwargs eq_refl Hall)
      as (kw & -> & _ & ->).
    by destruct (last kwargs).
Qed.

Lemma init_accepts_only_use_sfmath_witness :
  __init__ [("use_sfmath", false); ("colour", true)]
  = Exited ("Keyword " +:+ dquote +:+ "{}" +:+ dquote +:+ " not found, quitting.") (-1)
  ∧ __init__ [("use_sfmath", false)] = Started (new false).
Proof.
  split.
  - apply (init_accepts_only_use_sfmath [("use_sfmath", false); ("colour", true)]).
    exists "colour". split; [|discriminate].
    apply list_elem_of_further, list_elem_of_here.
  - apply (init_accepts_only_use_sfmath [("use_sfmath", false)]).
    intros key Hk. by apply list_elem_of_singleton in Hk.
Defined.

(** ** What the builder methods keep *)

Lemma elem_of_dict_set {V : Type} (k k' : string) (v v' : V) (d : dict V) :
  (k', v') ∈ dict_set k v d → (k' = k ∧ v' = v) ∨ (k', v') ∈ d.
Proof.
  induction d as [|[k0 v0] d IH]; simpl.
  - intros [=]%list_elem_of_singleton. by left.
  - case_decide as Hk.
    + intros [[=]|Hin]%elem_of_cons; [by left | right; by apply list_elem_of_further].
    + intros [Heq|Hin]%elem_of_cons.
      * right. rewrite Heq. apply list_elem_of_here.
      * destruct (IH Hin) as [?|?]; [by left | right; by apply list_elem_of_further].
Qed.

Lemma named_by_key_set (prefix k : string) (style : string) (lbl : label) (stack : bool)
    (d : dict marker) :
  named_by_key prefix d →
  named_by_key prefix (dict_set k (Marker (prefix +:+ k) style lbl stack) d).
Proof.
  intros Hd k' x [[-> ->]|Hin]%elem_of_dict_set; [done | by apply Hd].
Qed.

Lemma markers_named_do_call (c : call) (m : XDSM) :
  markers_named m → markers_named (do_call c m).2.
Proof.
  intros (Hi & Hl & Hr). destruct c; simpl; try done.
  - split_and!; simpl; [by apply named_by_key_set | done..].
  - unfold add_output. repeat case_decide; simpl; [| |done].
    + split_and!; simpl; [done | by apply named_by_key_set | done].
    + split_and!; simpl; [done.. | by apply named_by_key_set].
  - unfold connect. by case_decide.
Qed.

Lemma reachable_markers_named (m : XDSM) : reachable m → markers_named m.
Proof.
  intros (sf & cs & ->). induction cs as [|c cs IH] using rev_ind.
  - split_and!; intros k x Hin; by apply elem_of_nil in Hin.
  - rewrite run_calls_snoc. by apply markers_named_do_call.
Qed.

(** Whatever sequence of builder calls made the model: no connection joins
    a name to itself, every process has its arrow flag (so that the process
    loop, which runs over the two lists zipped, skips no process), and every
    marker's node name is the prefix of its side followed by the name it is
    stored under. *)
Theorem builder_calls_keep_invariants (m : XDSM) :
  reachable m →
  (∀ cn, cn ∈ connections m → conn_src cn ≠ conn_target cn)
  ∧ (zip (processes m) (process_arrows m)).*1 = processes m
  ∧ (zip (processes m) (process_arrows m)).*2 = process_arrows m
  ∧ (∀ k x, (k, x) ∈ ins m → mk_node x = "output_" +:+ k)
  ∧ (∀ k x, (k, x) ∈ left_outs m → mk_node x = "left_output_" +:+ k)
  ∧ (∀ k x, (k, x) ∈ right_outs m → mk_node x = "right_output_" +:+ k).
Proof.
  intros Hm. pose proof (reachable_wf m Hm) as [Hc Ha _ _ _].
  destruct (reachable_markers_named m Hm) as (Hi & Hl & Hr).
  split_and!; [done | | | done..].
  - apply fst_zip. lia.
  - apply snd_zip. lia.
Qed.

Lemma builder_calls_keep_invariants_witness :
  (zip (processes through_marker_model) (process_arrows through_marker_model)).*1
  = processes through_marker_model.
Proof.
  apply (builder_calls_keep_invariants through_marker_model).
  do 2 eexists; reflexivity.
Defined.

Lemma marker_names_from_keys (prefix : string) (d : dict marker) :
  named_by_key prefix d →
  mk_node <$> dict_values d = (λ k, prefix +:+ k) <$> dict_keys d.
Proof.
  unfold dict_values, dict_keys. induction d as [|[k x] d IH]; intros Hd; [done|].
  rewrite !fmap_cons. simpl. f_equal.
  - apply (Hd k x), list_elem_of_here.
  - apply IH. intros k' x' Hin. apply Hd. by apply list_elem_of_further.
Qed.

(** On every model made by builder calls the node names of all markers,
    inputs, left outputs and right outputs together, are pairwise
    different: a process entry that names a marker names one marker. *)
Theorem marker_node_names_distinct (m : XDSM) :
  reachable m → NoDup (output_names m).
Proof.
  intros Hm. pose proof (reachable_wf m Hm) as [_ _ Hi Hl Hr].
  destruct (reachable_markers_named m Hm) as (Hni & Hnl & Hnr).
  unfold output_names.
  rewrite (marker_names_from_keys _ _ Hni), (marker_names_from_keys _ _ Hnl),
    (marker_names_from_keys _ _ Hnr).
  apply NoDup_app. split_and!.
  - by apply (NoDup_fmap_2 _).
  - intros x (k1 & -> & _)%list_elem_of_fmap [Hx|Hx]%elem_of_app;
      apply list_elem_of_fmap in Hx as (k2 & Heq & _); cbv in Heq; discriminate.
  - apply NoDup_app. split_and!.
    + by apply (NoDup_fmap_2 _).
    + intros x (k1 & -> & _)%list_elem_of_fmap (k2 & Heq & _)%list_elem_of_fmap.
      cbv in Heq. discriminate.
    + by apply (NoDup_fmap_2 _).
Qed.

Lemma marker_node_names_distinct_witness : NoDup (output_names all_markers_model).
Proof.
  apply (marker_node_names_distinct all_markers_model).
  do 2 eexists; reflexivity.
Defined.

(** ** Declaring a marker again *)

Lemma dict_set_set {V : Type} (k : string) (v1 v2 : V) (d : dict V) :
  dict_set k v2 (dict_set k v1 d) = dict_set k v2 d.
Proof.
  induction d as [|[k0 v0] d IH]; simpl.
  - by rewrite decide_True.
  - case_decide as Hk; simpl.
    + by rewrite decide_True.
    + rewrite decide_False by done. by rewrite IH.
Qed.

(** Declaring a marker again for the same name (and side) leaves the model
    exactly as if only the second declaration had been made; and a
    declaration for a name that already has a marker keeps the name's place
    in the dictionary's order, while a new name goes to the end. *)
Theorem marker_declared_again (m : XDSM) (name : string)
    (lbl1 lbl2 : label) (style1 style2 : string) (stack1 stack2 : bool) (side : string) :
  (add_input name lbl2 style2 stack2 (add_input name lbl1 style1 stack1 m).2).2
  = (add_input name lbl2 style2 stack2 m).2
  ∧ (add_output name lbl2 style2 stack2 side (add_output name lbl1 style1 stack1 side m).2).2
    = (add_output name lbl2 style2 stack2 side m).2
  ∧ dict_keys (ins (add_input name lbl1 style1 stack1 m).2)
    = (if bool_decide (name ∈ dict_keys (ins m)) then dict_keys (ins m)
       else dict_keys (ins m) ++ [name])
  ∧ dict_keys (left_outs (add_output name lbl1 style1 stack1 "left" m).2)
    = (if bool_decide (name ∈ dict_keys (left_outs m)) then dict_keys (left_outs m)
       else dict_keys (left_outs m) ++ [name])
  ∧ dict_keys (right_outs (add_output name lbl1 style1 stack1 "right" m).2)
    = (if bool_decide (name ∈ dict_keys (right_outs m)) then dict_keys (right_outs m)
       else dict_keys (right_outs m) ++ [name]).
Proof.
  split_and!.
  - unfold add_input, m_modify, set_ins. simpl. by rewrite dict_set_set.
  - unfold add_output. repeat case_decide; unfold m_modify, set_left_outs, set_right_outs;
      simpl; by rewrite ?dict_set_set.
  - simpl. apply dict_set_keys.
  - simpl. apply dict_set_keys.
  - simpl. apply dict_set_keys.
Qed.

(** ** Adding a process *)

Lemma concat_str_snoc (l : list string) (x : string) :
  concat_str (l ++ [x]) = concat_str l +:+ x.
Proof.
  induction l as [|y l IH]; simpl.
  - by rewrite str_app_empty_r.
  - by rewrite IH, str_app_assoc.
Qed.

(** On a model made by builder calls whose process chain renders, adding a
    process whose entries all resolve adds its block at the end of the
    chain and changes nothing before it; adding one with an entry that does
    not resolve makes the chain raise for the first such entry. *)
Theorem add_process_appends_block (m : XDSM) (systems : list string) (arrow : bool)
    (s : string) :
  reachable m → build_process_chain m = Ok s →
  build_process_chain (add_process systems arrow m).2
  = match find (unresolved (sys_names m) (output_names m)) systems with
    | Some sys =>
        Raise (ValueError ("process includes a system named " +:+ dquote +:+ sys
                           +:+ dquote +:+ " but no system with that name exists."))
    | None => Ok (s +:+ proc_str (tip_by_target (output_names m)) (systems, arrow))
    end.
Proof.
  intros Hm Hs. pose proof (reachable_wf m Hm) as [_ Ha _ _ _].
  rewrite (build_process_chain_closed m Ha) in Hs.
  rewrite build_process_chain_closed by (simpl; rewrite !length_app; simpl; lia).
  simpl. rewrite concat_app, find_app_first. simpl. rewrite app_nil_r.
  destruct (find _ (concat (processes m))); [done|]. injection Hs as <-.
  destruct (find _ systems); [done|].
  rewrite zip_with_app by done. rewrite fmap_app.
  change (zip [systems] [arrow]) with [(systems, arrow)]. rewrite fmap_cons, fmap_nil.
  by rewrite concat_str_snoc.
Qed.

Lemma add_process_appends_block_witness :
  build_process_chain (add_process ["B"; "A"] false through_marker_model).2
  = Ok ((chain_open +:+ chainin "A" +:+ chainin_join "output_A" "ProcessTipA"
         +:+ chainin_join "B" "ProcessHVA" +:+ chain_close)
        +:+ proc_str (tip_by_target (output_names through_marker_model)) (["B"; "A"], false)).
Proof.
  apply (add_process_appends_block through_marker_model ["B"; "A"] false).
  - do 2 eexists; reflexivity.
  - reflexivity.
Defined.

(** ** The grid with markers: size and diagonal *)

(** On a model made by builder calls, whenever [_build_node_grid] gets to
    a grid, the grid is square, its side is the number of components plus
    one for each kind of marker present (inputs, left outputs, right
    outputs), and the i-th component sits at row i, one further down when
    there are inputs, and column i, one further right when there are left
    outputs. *)
Theorem grid_size_and_shifted_diagonal (m : XDSM) (g : grid) :
  reachable m → node_grid m = Ok g →
  length g = length (comps m) + (if truthy (ins m) then 1 else 0)
             + (if truthy (left_outs m) then 1 else 0)
             + (if truthy (right_outs m) then 1 else 0)
  ∧ (∀ r row, g !! r = Some row → length row = length g)
  ∧ ∀ i c, comps m !! i = Some c →
      cell g (i + (if truthy (ins m) then 1 else 0))
             (i + (if truthy (left_outs m) then 1 else 0)) = Some (comp_node c).
Proof.
  intros Hm%reachable_wf Hg.
  apply node_grid_diagonal in Hg as [[Hlen Hrows] Hdiag]; [|apply Hm].
  rewrite grid_size_shifts in Hlen. split_and!; [done | | done].
  intros r row Hr. rewrite (Hrows r row Hr), Hlen. apply grid_size_shifts.
Qed.

Lemma grid_size_and_shifted_diagonal_witness :
  ∃ g, node_grid all_markers_model = Ok g ∧ length g = 2 + 1 + 1 + 1.
Proof.
  eexists. split; [reflexivity|].
  eapply (grid_size_and_shifted_diagonal all_markers_model).
  - do 2 eexists; reflexivity.
  - reflexivity.
Defined.

(** ** When the grid is built and when it is not *)

(** A loop over assignments to cells each of which either returns on a
    square grid, having found its names, or raises the [KeyError] of a name
    that no component carries. *)
Lemma loop_returns_or_key_error {A : Type} (f : grid → A → result grid)
    (names : A → list string) (sysn : list string) (n : nat) (l : list A) (g0 : grid) :
  square n g0 →
  (∀ g x, x ∈ l → square n g →
     (∃ g', f g x = Ok g' ∧ square n g' ∧ ∀ k, k ∈ names x → k ∈ sysn)
     ∨ (∃ k, f g x = Raise (KeyError k) ∧ k ∈ names x ∧ k ∉ sysn)) →
  (∃ g', foldM f l g0 = Ok g' ∧ square n g'
     ∧ ∀ k, k ∈ concat (names <$> l) → k ∈ sysn)
  ∨ (∃ k, foldM f l g0 = Raise (KeyError k) ∧ k ∈ concat (names <$> l) ∧ k ∉ sysn).
Proof.
  revert g0. induction l as [|x l IH]; intros g0 Hsq Hstep.
  - left. exists g0. split_and!; [done..|]. intros k Hk. by apply elem_of_nil in Hk.
  - rewrite fmap_cons. cbn [concat foldM].
    destruct (Hstep g0 x (list_elem_of_here _ _) Hsq)
      as [(g1 & -> & Hsq1 & Hx)|(k & -> & Hk & Hno)].
    + simpl. destruct (IH g1 Hsq1) as [(g' & Hrun & Hsq' & Hl)|(k & Hrun & Hk & Hno)].
      * intros g y Hy. apply Hstep. by apply list_elem_of_further.
      * left. exists g'. split_and!; [done..|].
        intros k [Hk|Hk]%elem_of_app; [by apply Hx | by apply Hl].
      * right. exists k. split_and!; [done | | done]. apply elem_of_app. by right.
    + right. exists k. split_and!; [done | | done]. apply elem_of_app. by left.
Qed.

(** A name bound in neither index map is carried by no component. *)
Lemma indexed_unbound_row (m : XDSM) (rmap cmap : gmap string Z) (name : string) :
  indexed m (length (comps m)) rmap cmap → rmap !! name = None → name ∉ sys_names m.
Proof.
  intros Hidx Hr Hin.
  destruct (indexed_declared m rmap cmap name Hidx Hin) as (j & x & _ & _ & Hr' & _).
  congruence.
Qed.

Lemma indexed_unbound_col (m : XDSM) (rmap cmap : gmap string Z) (name : string) :
  indexed m (length (comps m)) rmap cmap → cmap !! name = None → name ∉ sys_names m.
Proof.
  intros Hidx Hc Hin.
  destruct (indexed_declared m rmap cmap name Hidx Hin) as (j & x & _ & _ & _ & Hc').
  congruence.
Qed.

Lemma indexed_bound_row (m : XDSM) (rmap cmap : gmap string Z) (name : string) (r : Z) :
  indexed m (length (comps m)) rmap cmap → rmap !! name = Some r →
  name ∈ sys_names m ∧ ∃ j, j < length (comps m) ∧ r = Z.of_nat (j + row_shift m).
Proof.
  intros Hidx Hr.
  destruct (indexed_row _ _ _ _ _ _ Hidx Hr) as (j & x & Hj & Hx & <- & ->).
  split; [|by exists j]. apply list_elem_of_fmap. exists x.
  split; [done | by eapply list_elem_of_lookup_2].
Qed.

Lemma indexed_bound_col (m : XDSM) (rmap cmap : gmap string Z) (name : string) (c : Z) :
  indexed m (length (comps m)) rmap cmap → cmap !! name = Some c →
  name ∈ sys_names m ∧ ∃ j, j < length (comps m) ∧ c = Z.of_nat (j + col_shift m).
Proof.
  intros Hidx Hc.
  destruct (indexed_col _ _ _ _ _ _ Hidx Hc) as (j & x & Hj & Hx & <- & ->).
  split; [|by exists j]. apply list_elem_of_fmap. exists x.
  split; [done | by eapply list_elem_of_lookup_2].
Qed.

(** An assignment in range keeps the grid square. *)
Lemma grid_set_square (n : nat) (g : grid) (loc : Z * Z) (v : string) (R C : nat) :
  square n g → norm_index n loc.1 = Ok R → norm_index n loc.2 = Ok C →
  ∃ g', grid_set g loc v = Ok g' ∧ square n g'.
Proof.
  intros Hsq HR HC. destruct (grid_set_returns n g loc v R C Hsq HR HC) as [g' Hg'].
  exists g'. split; [done|].
  by destruct (grid_set_Ok n g g' loc v Hsq Hg') as (_ & _ & _ & _ & Hsq' & _).
Qed.

Section outcome.
Variable m : XDSM.
Variables rmap cmap : gmap string Z.
Hypothesis Hidx : indexed m (length (comps m)) rmap cmap.

Lemma place_conn_outcome (g : grid) (cn : conn) :
  square (grid_size m) g →
  (∃ g', place_conn rmap cmap g cn = Ok g' ∧ square (grid_size m) g'
     ∧ ∀ k, k ∈ [conn_src cn; conn_target cn] → k ∈ sys_names m)
  ∨ (∃ k, place_conn rmap cmap g cn = Raise (KeyError k)
       ∧ k ∈ [conn_src cn; conn_target cn] ∧ k ∉ sys_names m).
Proof.
  intros Hsq. unfold place_conn, idx_lookup.
  pose proof (grid_size_shifts m) as Hsize.
  destruct (rmap !! conn_src cn) as [r|] eqn:Hr; simpl.
  - destruct (indexed_bound_row _ _ _ _ _ Hidx Hr) as (Hs & j1 & Hj1 & ->).
    destruct (cmap !! conn_target cn) as [c|] eqn:Hc; simpl.
    + destruct (indexed_bound_col _ _ _ _ _ Hidx Hc) as (Ht & j2 & Hj2 & ->).
      left. destruct (grid_set_square (grid_size m) g
                 (Z.of_nat (j1 + row_shift m), Z.of_nat (j2 + col_shift m))
                 (conn_node cn) (j1 + row_shift m) (j2 + col_shift m) Hsq)
        as (g' & Hg' & Hsq'); [apply norm_index_nonneg; simpl; lia..|].
      exists g'. split_and!; [done..|].
      intros k [->|[->|[]%elem_of_nil]%elem_of_cons]%elem_of_cons; done.
    + right. exists (conn_target cn). split_and!; [done | |].
      * apply list_elem_of_further, list_elem_of_here.
      * by eapply indexed_unbound_col.
  - right. exists (conn_src cn). split_and!; [done | apply list_elem_of_here |].
    by eapply indexed_unbound_row.
Qed.

Lemma place_left_out_outcome (g : grid) (x : string * marker) :
  square (grid_size m) g →
  (∃ g', place_left_out rmap g x = Ok g' ∧ square (grid_size m) g'
     ∧ ∀ k, k ∈ [x.1] → k ∈ sys_names m)
  ∨ (∃ k, place_left_out rmap g x = Raise (KeyError k) ∧ k ∈ [x.1] ∧ k ∉ sys_names m).
Proof.
  intros Hsq. unfold place_left_out, idx_lookup.
  pose proof (grid_size_shifts m) as Hsize.
  destruct (rmap !! x.1) as [r|] eqn:Hr; simpl.
  - destruct (indexed_bound_row _ _ _ _ _ Hidx Hr) as (Hs & j & Hj & ->).
    left. destruct (grid_set_square (grid_size m) g (Z.of_nat (j + row_shift m), 0%Z)
               (marker_node x.2) (j + row_shift m) 0 Hsq)
      as (g' & Hg' & Hsq'); [apply norm_index_nonneg; simpl; lia
                            | apply (norm_index_nonneg _ 0); lia |].
    exists g'. split_and!; [done..|]. by intros k ->%list_elem_of_singleton.
  - right. exists x.1. split_and!; [done | apply list_elem_of_here |].
    by eapply indexed_unbound_row.
Qed.

Lemma place_right_out_outcome (g : grid) (x : string * marker) :
  square (grid_size m) g →
  (∃ g', place_right_out rmap g x = Ok g' ∧ square (grid_size m) g'
     ∧ ∀ k, k ∈ [x.1] → k ∈ sys_names m)
  ∨ (∃ k, place_right_out rmap g x = Raise (KeyError k) ∧ k ∈ [x.1] ∧ k ∉ sys_names m).
Proof.
  intros Hsq. unfold place_right_out, idx_lookup.
  pose proof (grid_size_shifts m) as Hsize.
  destruct (rmap !! x.1) as [r|] eqn:Hr; simpl.
  - destruct (indexed_bound_row _ _ _ _ _ Hidx Hr) as (Hs & j & Hj & ->).
    left. destruct (grid_set_square (grid_size m) g (Z.of_nat (j + row_shift m), (-1)%Z)
               (marker_node x.2) (j + row_shift m) (grid_size m - 1) Hsq)
      as (g' & Hg' & Hsq'); [apply norm_index_nonneg; simpl; lia
                            | apply norm_index_last; lia |].
    exists g'. split_and!; [done..|]. by intros k ->%list_elem_of_singleton.
  - right. exists x.1. split_and!; [done | apply list_elem_of_here |].
    by eapply indexed_unbound_row.
Qed.

Lemma place_in_outcome (g : grid) (x : string * marker) :
  square (grid_size m) g →
  (∃ g', place_in cmap g x = Ok g' ∧ square (grid_size m) g'
     ∧ ∀ k, k ∈ [x.1] → k ∈ sys_names m)
  ∨ (∃ k, place_in cmap g x = Raise (KeyError k) ∧ k ∈ [x.1] ∧ k ∉ sys_names m).
Proof.
  intros Hsq. unfold place_in, idx_lookup.
  pose proof (grid_size_shifts m) as Hsize.
  destruct (cmap !! x.1) as [c|] eqn:Hc; simpl.
  - destruct (indexed_bound_col _ _ _ _ _ Hidx Hc) as (Hs & j & Hj & ->).
    left. destruct (grid_set_square (grid_size m) g (0%Z, Z.of_nat (j + col_shift m))
               (marker_node x.2) 0 (j + col_shift m) Hsq)
      as (g' & Hg' & Hsq'); [apply (norm_index_nonneg _ 0); lia
                            | apply norm_index_nonneg; simpl; lia |].
    exists g'. split_and!; [done..|]. by intros k ->%list_elem_of_singleton.
  - right. exists x.1. split_and!; [done | apply list_elem_of_here |].
    by eapply indexed_unbound_col.
Qed.
End outcome.

Lemma concat_singletons {A B : Type} (f : A → B) (l : list A) :
  concat ((λ x, [f x]) <$> l) = f <$> l.
Proof. induction l as [|x l IH]; [done|]. rewrite !fmap_cons. simpl. by rewrite IH. Qed.

(** The two outcomes of the grid loops. *)
Lemma node_grid_outcome (m : XDSM) :
  ((∀ k, k ∈ referenced_names m → k ∈ sys_names m)
   ∧ ∃ g, node_grid m = Ok g ∧ build_node_grid m = Ok (rows_str g)
       ∧ length g = grid_size m)
  ∨ (∃ k, node_grid m = Raise (KeyError k) ∧ build_node_grid m = Raise (KeyError k)
       ∧ k ∈ referenced_names m ∧ k ∉ sys_names m).
Proof.
  unfold build_node_grid, node_grid, referenced_names. fold (placements m).
  destruct (place_comps_returns m) as ([[g0 rmap] cmap] & -> & [(Hsq0 & _) Hidx]).
  simpl in *.
  destruct (loop_returns_or_key_error (place_conn rmap cmap)
              (λ cn, [conn_src cn; conn_target cn]) (sys_names m) _ (connections m) g0 Hsq0)
    as [(g1 & -> & Hsq1 & Hn1)|(k & -> & Hk & Hno)]; simpl.
  { intros g cn _. by apply (place_conn_outcome m rmap cmap Hidx). }
  2: { right. exists k. split_and!; [done.. | | done]. apply elem_of_app. by left. }
  destruct (loop_returns_or_key_error (place_left_out rmap)
              (λ x, [x.1]) (sys_names m) _ (left_outs m) g1 Hsq1)
    as [(g2 & -> & Hsq2 & Hn2)|(k & -> & Hk & Hno)]; simpl.
  { intros g x _. by apply (place_left_out_outcome m rmap cmap Hidx). }
  2: { right. exists k. split_and!; [done.. | | done]. rewrite concat_singletons in Hk.
       apply elem_of_app. right. apply elem_of_app. by left. }
  destruct (loop_returns_or_key_error (place_right_out rmap)
              (λ x, [x.1]) (sys_names m) _ (right_outs m) g2 Hsq2)
    as [(g3 & -> & Hsq3 & Hn3)|(k & -> & Hk & Hno)]; simpl.
  { intros g x _. by apply (place_right_out_outcome m rmap cmap Hidx). }
  2: { right. exists k. split_and!; [done.. | | done]. rewrite concat_singletons in Hk.
       apply elem_of_app. right. apply elem_of_app. right. apply elem_of_app. by left. }
  destruct (loop_returns_or_key_error (place_in cmap)
              (λ x, [x.1]) (sys_names m) _ (ins m) g3 Hsq3)
    as [(g4 & Hrun & Hsq4 & Hn4)|(k & Hrun & Hk & Hno)]; [|rewrite Hrun; simpl..].
  { intros g x _. by apply (place_in_outcome m rmap cmap Hidx). }
  2: { right. exists k. split_and!; [done.. | | done]. rewrite concat_singletons in Hk.
       apply elem_of_app. right. apply elem_of_app. right. apply elem_of_app. by right. }
  left. rewrite concat_singletons in Hn2, Hn3, Hn4. split.
  - intros k [Hk|[Hk|[Hk|Hk]%elem_of_app]%elem_of_app]%elem_of_app; auto.
  - exists g4. split_and!; [done..|]. apply Hsq4.
Qed.

(** [_build_node_grid] has two outcomes only.  Either every name it looks
    up (the ends of the connections and the owners of the markers) is the
    name of a component, and then it returns a grid of the computed size; or
    it raises the [KeyError] of a looked-up name that no component carries.
    An index is never out of range and no other exception is raised. *)
Theorem node_grid_returns_or_key_error (m : XDSM) :
  ((∀ k, k ∈ referenced_names m → k ∈ sys_names m)
   ∧ ∃ g, node_grid m = Ok g ∧ build_node_grid m = Ok (rows_str g)
       ∧ length g = grid_size m)
  ∨ (∃ k, node_grid m = Raise (KeyError k) ∧ build_node_grid m = Raise (KeyError k)
       ∧ k ∈ referenced_names m ∧ k ∉ sys_names m).
Proof. apply node_grid_outcome. Qed.

(** ** Every cell of the grid *)

Lemma last_index_from_snoc (k : nat) (name : string) (l : list comp) (c : comp) :
  last_index_from k name (l ++ [c])
  = if decide (comp_name c = name) then Some (k + length l) else last_index_from k name l.
Proof.
  revert k. induction l as [|a l IH]; intros k; simpl.
  - case_decide; [f_equal; lia | done].
  - rewrite IH. case_decide; [f_equal; lia | done].
Qed.

(** The index maps after the diagonal loop, in closed form. *)
Lemma place_comps_maps (m : XDSM) (g0 g : grid) (rmap cmap : gmap string Z) :
  foldM place_comp (placements m) (g0, ∅, ∅) = Ok (g, rmap, cmap) →
  ∀ name, rmap !! name = Z.of_nat <$> row_of m name
        ∧ cmap !! name = Z.of_nat <$> col_of m name.
Proof.
  intros Hrun.
  pose (I := λ (k : nat) (st : placing), ∀ name,
    st.1.2 !! name = (λ j, Z.of_nat (j + row_shift m)) <$> last_index name (take k (comps m))
    ∧ st.2 !! name = (λ j, Z.of_nat (j + col_shift m)) <$> last_index name (take k (comps m))).
  assert (I (length (placements m)) (g, rmap, cmap)) as Hfin.
  { apply (foldM_invariant place_comp I (placements m) (g0, ∅, ∅)); [done | | done].
    intros i x [[g1 r1] c1] [[g2 r2] c2] Hx HI Hstep name.
    apply placements_lookup in Hx as (c & Hc & ->). simpl in Hstep.
    destruct (grid_set g1 _ _) as [g'|]; [|done]. simpl in Hstep. simplify_eq. simpl.
    rewrite (take_S_r _ _ _ Hc). unfold last_index. rewrite last_index_from_snoc.
    rewrite length_take_le by (apply lookup_lt_Some in Hc; lia). simpl.
    destruct (HI name) as [Hr Hcl]. simpl in Hr, Hcl.
    case_decide as Hn.
    - rewrite Hn, !lookup_insert_eq. done.
    - rewrite !lookup_insert_ne by done. done. }
  intros name. destruct (Hfin name) as [Hr Hc]. simpl in Hr, Hc.
  rewrite placements_length, firstn_all in Hr, Hc.
  unfold row_of, col_of. rewrite Hr, Hc. by destruct (last_index name (comps m)).
Qed.

(** A loop of assignments: afterwards a cell holds what the last
    assignment to it wrote, and what it held before when there was none. *)
Lemma foldM_cells {A : Type} (f : grid → A → result grid)
    (pos : A → option (nat * nat)) (val : A → string) (n : nat)
    (l : list A) (g0 g : grid) :
  square n g0 →
  (∀ g1 g2 x, x ∈ l → square n g1 → f g1 x = Ok g2 →
     ∃ R C, pos x = Some (R, C) ∧ square n g2 ∧ cell g2 R C = Some (val x)
       ∧ ∀ r c, r ≠ R ∨ c ≠ C → cell g2 r c = cell g1 r c) →
  foldM f l g0 = Ok g →
  square n g
  ∧ ∀ r c, cell g r c = match last_hit pos val l (r, c) with
                        | Some v => Some v
                        | None => cell g0 r c
                        end.
Proof.
  revert g0. induction l as [|x l IH]; intros g0 Hsq Hstep Hrun; simpl in *.
  - by simplify_eq.
  - destruct (f g0 x) as [g1|] eqn:Hf; [simpl in Hrun|done].
    destruct (Hstep g0 g1 x (list_elem_of_here _ _) Hsq Hf)
      as (R & C & Hpos & Hsq1 & Hcell & Hother).
    destruct (IH g1 Hsq1) as [Hsqg Hcells]; [|done|].
    { intros g2 g3 y Hy. apply Hstep. by apply list_elem_of_further. }
    split; [done|]. intros r c. rewrite Hcells.
    destruct (last_hit pos val l (r, c)); [done|].
    rewrite Hpos. case_decide as Hp.
    + by simplify_eq.
    + apply Hother. destruct (decide (r = R)) as [->|?]; [|by left].
      right. intros ->. done.
Qed.

Section cells.
Variable m : XDSM.
Variables rmap cmap : gmap string Z.
Hypothesis Hmaps : ∀ name, rmap !! name = Z.of_nat <$> row_of m name
                         ∧ cmap !! name = Z.of_nat <$> col_of m name.

Lemma idx_lookup_row (name : string) (r : Z) :
  idx_lookup rmap name = Ok r → ∃ R, row_of m name = Some R ∧ r = Z.of_nat R.
Proof.
  intros Hr%idx_lookup_Ok. rewrite (proj1 (Hmaps name)) in Hr.
  destruct (row_of m name) as [R|]; [|done]. exists R. by simplify_eq/=.
Qed.

Lemma idx_lookup_col (name : string) (c : Z) :
  idx_lookup cmap name = Ok c → ∃ C, col_of m name = Some C ∧ c = Z.of_nat C.
Proof.
  intros Hc%idx_lookup_Ok. rewrite (proj2 (Hmaps name)) in Hc.
  destruct (col_of m name) as [C|]; [|done]. exists C. by simplify_eq/=.
Qed.

(** What an assignment that returned has done, its indices read as
    numpy reads them. *)
Lemma grid_set_cells (g1 g2 : grid) (loc : Z * Z) (v : string) :
  square (grid_size m) g1 → grid_set g1 loc v = Ok g2 →
  ∃ R C, (0 ≤ loc.1 → R = Z.to_nat loc.1)%Z ∧ (0 ≤ loc.2 → C = Z.to_nat loc.2)%Z
    ∧ (loc.2 = (-1)%Z → C = grid_size m - 1)
    ∧ square (grid_size m) g2 ∧ cell g2 R C = Some v
    ∧ ∀ r c, r ≠ R ∨ c ≠ C → cell g2 r c = cell g1 r c.
Proof.
  intros Hsq Hset.
  destruct (grid_set_Ok _ g1 g2 loc v Hsq Hset) as (R & C & HR & HC & Hsq2 & Hcell & Hoth).
  exists R, C. apply norm_index_Ok in HR as (_ & HR & _).
  apply norm_index_Ok in HC as (_ & HC & HC'). by split_and!.
Qed.

Lemma place_conn_cells (g1 g2 : grid) (cn : conn) :
  square (grid_size m) g1 → place_conn rmap cmap g1 cn = Ok g2 →
  ∃ R C, conn_cell m cn = Some (R, C) ∧ square (grid_size m) g2
    ∧ cell g2 R C = Some (conn_node cn)
    ∧ ∀ r c, r ≠ R ∨ c ≠ C → cell g2 r c = cell g1 r c.
Proof.
  intros Hsq. unfold place_conn.
  destruct (idx_lookup rmap (conn_src cn)) as [r|] eqn:Hr; [simpl|done].
  destruct (idx_lookup cmap (conn_target cn)) as [c|] eqn:Hc; [simpl|done].
  apply idx_lookup_row in Hr as (R & HR & ->). apply idx_lookup_col in Hc as (C & HC & ->).
  intros Hset.
  destruct (grid_set_cells g1 g2 _ _ Hsq Hset) as (R' & C' & HR' & HC' & _ & Hsq2 & Hcell & Ho).
  simpl in HR', HC'. rewrite HR', HC', !Nat2Z.id in * by lia.
  exists R, C. unfold conn_cell. rewrite HR, HC. done.
Qed.

Lemma place_left_out_cells (g1 g2 : grid) (x : string * marker) :
  square (grid_size m) g1 → place_left_out rmap g1 x = Ok g2 →
  ∃ R C, left_cell m x = Some (R, C) ∧ square (grid_size m) g2
    ∧ cell g2 R C = Some (marker_node x.2)
    ∧ ∀ r c, r ≠ R ∨ c ≠ C → cell g2 r c = cell g1 r c.
Proof.
  intros Hsq. unfold place_left_out.
  destruct (idx_lookup rmap x.1) as [r|] eqn:Hr; [simpl|done].
  apply idx_lookup_row in Hr as (R & HR & ->). intros Hset.
  destruct (grid_set_cells g1 g2 _ _ Hsq Hset) as (R' & C' & HR' & HC' & _ & Hsq2 & Hcell & Ho).
  simpl in HR', HC'. rewrite HR', HC', !Nat2Z.id in * by lia.
  exists R, 0. unfold left_cell. rewrite HR. done.
Qed.

Lemma place_right_out_cells (g1 g2 : grid) (x : string * marker) :
  square (grid_size m) g1 → place_right_out rmap g1 x = Ok g2 →
  ∃ R C, right_cell m x = Some (R, C) ∧ square (grid_size m) g2
    ∧ cell g2 R C = Some (marker_node x.2)
    ∧ ∀ r c, r ≠ R ∨ c ≠ C → cell g2 r c = cell g1 r c.
Proof.
  intros Hsq. unfold place_right_out.
  destruct (idx_lookup rmap x.1) as [r|] eqn:Hr; [simpl|done].
  apply idx_lookup_row in Hr as (R & HR & ->). intros Hset.
  destruct (grid_set_cells g1 g2 _ _ Hsq Hset) as (R' & C' & HR' & _ & HC' & Hsq2 & Hcell & Ho).
  simpl in HR', HC'. rewrite HR', HC', !Nat2Z.id in * by lia.
  exists R, (grid_size m - 1). unfold right_cell. rewrite HR. done.
Qed.

Lemma place_in_cells (g1 g2 : grid) (x : string * marker) :
  square (grid_size m) g1 → place_in cmap g1 x = Ok g2 →
  ∃ R C, in_cell m x = Some (R, C) ∧ square (grid_size m) g2
    ∧ cell g2 R C = Some (marker_node x.2)
    ∧ ∀ r c, r ≠ R ∨ c ≠ C → cell g2 r c = cell g1 r c.
Proof.
  intros Hsq. unfold place_in.
  destruct (idx_lookup cmap x.1) as [c|] eqn:Hc; [simpl|done].
  apply idx_lookup_col in Hc as (C & HC & ->). intros Hset.
  destruct (grid_set_cells g1 g2 _ _ Hsq Hset) as (R' & C' & HR' & HC' & _ & Hsq2 & Hcell & Ho).
  simpl in HR', HC'. rewrite HR', HC', !Nat2Z.id in * by lia.
  exists 0, C. unfold in_cell. rewrite HC. done.
Qed.
End cells.

(** The grid after the diagonal loop, cell by cell. *)
Lemma diagonal_upto_cells (m : XDSM) (g : grid) (r c : nat) :
  diagonal_upto m (length (comps m)) g → r < grid_size m → c < grid_size m →
  cell g r c = Some (diag_cell m (r, c)).
Proof.
  intros (_ & Hdiag & Hrest) Hr Hc. unfold diag_cell. simpl.
  case_bool_decide as Hd.
  - destruct Hd as (H1 & H2 & H3).
    destruct (comps m !! (r - row_shift m)) as [x|] eqn:Hx.
    + apply lookup_lt_Some in Hx as Hlt.
      replace r with ((r - row_shift m) + row_shift m) at 1 by lia.
      replace c with ((r - row_shift m) + col_shift m) by lia.
      by apply Hdiag.
    + apply lookup_ge_None in Hx. apply Hrest; [done..|]. intros i Hi. lia.
  - apply Hrest; [done..|]. intros i Hi.
    destruct (decide (r = i + row_shift m)) as [->|?]; [|by left].
    right. intros ->. apply Hd. lia.
Qed.

(** The finished grid, cell by cell. *)
Lemma node_grid_expected (m : XDSM) (g : grid) :
  node_grid m = Ok g →
  length g = grid_size m
  ∧ (∀ r row, g !! r = Some row → length row = grid_size m)
  ∧ ∀ r c, r < grid_size m → c < grid_size m →
      cell g r c = Some (expected_cell m (r, c)).
Proof.
  unfold node_grid. fold (placements m).
  destruct (place_comps_returns m) as ([[g0 rmap] cmap] & Hrun & [Hd0 _]). rewrite Hrun.
  pose proof (place_comps_maps m _ _ _ _ Hrun) as Hmaps. simpl in *.
  pose proof (proj1 Hd0) as Hsq0.
  destruct (foldM (place_conn rmap cmap) _ g0) as [g1|] eqn:H1; [simpl|done].
  destruct (foldM (place_left_out rmap) _ g1) as [g2|] eqn:H2; [simpl|done].
  destruct (foldM (place_right_out rmap) _ g2) as [g3|] eqn:H3; [simpl|done].
  intros H4.
  apply (foldM_cells _ (conn_cell m) conn_node _ _ _ _ Hsq0) in H1 as [Hsq1 Hc1].
  2: { intros ga gb x _. by apply (place_conn_cells m rmap cmap Hmaps). }
  apply (foldM_cells _ (left_cell m) (λ x, marker_node x.2) _ _ _ _ Hsq1) in H2 as [Hsq2 Hc2].
  2: { intros ga gb x _. by apply (place_left_out_cells m rmap cmap Hmaps). }
  apply (foldM_cells _ (right_cell m) (λ x, marker_node x.2) _ _ _ _ Hsq2) in H3 as [Hsq3 Hc3].
  2: { intros ga gb x _. by apply (place_right_out_cells m rmap cmap Hmaps). }
  apply (foldM_cells _ (in_cell m) (λ x, marker_node x.2) _ _ _ _ Hsq3) in H4 as [Hsq4 Hc4].
  2: { intros ga gb x _. by apply (place_in_cells m rmap cmap Hmaps). }
  destruct Hsq4 as [Hlen Hrows]. split_and!; [done..|].
  intros r c Hr Hc. rewrite Hc4, Hc3, Hc2, Hc1, (diagonal_upto_cells m g0 r c Hd0 Hr Hc).
  unfold expected_cell.
  destruct (last_hit (in_cell m) _ _ _); [done|].
  destruct (last_hit (right_cell m) _ _ _); [done|].
  destruct (last_hit (left_cell m) _ _ _); [done|].
  by destruct (last_hit (conn_cell m) _ _ _).
Qed.

(** Whenever [_build_node_grid] gets to a grid, every cell of it is known:
    it holds the node of the last input written there, else of the last
    right output, else of the last left output, else of the last
    connection, else the component on the diagonal, else nothing.  A name
    stands for the row and column of the last component that carries it. *)
Theorem node_grid_cells (m : XDSM) (g : grid) :
  node_grid m = Ok g →
  length g = grid_size m
  ∧ (∀ r row, g !! r = Some row → length row = grid_size m)
  ∧ ∀ r c, r < grid_size m → c < grid_size m →
      cell g r c = Some (expected_cell m (r, c)).
Proof. apply node_grid_expected. Qed.

Lemma node_grid_cells_witness :
  ∃ g, node_grid all_markers_model = Ok g ∧ length g = grid_size all_markers_model.
Proof.
  eexists. split; [reflexivity|].
  eapply (node_grid_cells all_markers_model). reflexivity.
Defined.

(** ** Where declarations end up *)

Lemma last_index_from_Some (k : nat) (name : string) (cs : list comp) (j : nat) :
  last_index_from k name cs = Some j →
  k ≤ j ∧ ∃ x, cs !! (j - k) = Some x ∧ comp_name x = name.
Proof.
  revert k. induction cs as [|c cs IH]; intros k; simpl; [done|].
  destruct (last_index_from (S k) name cs) as [j'|] eqn:Hl.
  - intros [= ->]. destruct (IH (S k) Hl) as (Hle & x & Hx & Hn).
    split; [lia|]. exists x. split; [|done].
    replace (j - k) with (S (j - S k)) by lia. done.
  - case_decide as Hn; [|done]. intros [= ->]. split; [lia|].
    exists c. by rewrite Nat.sub_diag.
Qed.

Lemma last_index_Some (name : string) (cs : list comp) (j : nat) :
  last_index name cs = Some j → ∃ x, cs !! j = Some x ∧ comp_name x = name.
Proof.
  intros (_ & x & Hx & Hn)%last_index_from_Some. rewrite Nat.sub_0_r in Hx. by exists x.
Qed.

Lemma last_index_from_declared (k : nat) (name : string) (cs : list comp) :
  name ∈ comp_name <$> cs → is_Some (last_index_from k name cs).
Proof.
  revert k. induction cs as [|c cs IH]; intros k; [by intros ?%elem_of_nil|].
  rewrite fmap_cons. simpl. intros [->|Hin]%elem_of_cons.
  - destruct (last_index_from (S k) (comp_name c) cs); [done|]. by rewrite decide_True.
  - destruct (IH (S k) Hin) as [j ->]. done.
Qed.

Lemma row_of_Some (m : XDSM) (name : string) (R : nat) :
  row_of m name = Some R →
  ∃ j x, R = j + row_shift m ∧ comps m !! j = Some x ∧ comp_name x = name.
Proof.
  unfold row_of. destruct (last_index name (comps m)) as [j|] eqn:Hj; [|done].
  intros [= <-]. destruct (last_index_Some _ _ _ Hj) as (x & Hx & Hn). by exists j, x.
Qed.

Lemma col_of_Some (m : XDSM) (name : string) (C : nat) :
  col_of m name = Some C →
  ∃ j x, C = j + col_shift m ∧ comps m !! j = Some x ∧ comp_name x = name.
Proof.
  unfold col_of. destruct (last_index name (comps m)) as [j|] eqn:Hj; [|done].
  intros [= <-]. destruct (last_index_Some _ _ _ Hj) as (x & Hx & Hn). by exists j, x.
Qed.

(** Two names with the same row, or the same column, are one name. *)
Lemma row_of_inj (m : XDSM) (n1 n2 : string) (R : nat) :
  row_of m n1 = Some R → row_of m n2 = Some R → n1 = n2.
Proof.
  intros (j1 & x1 & -> & Hx1 & <-)%row_of_Some (j2 & x2 & Hj & Hx2 & <-)%row_of_Some.
  assert (j1 = j2) as -> by lia. congruence.
Qed.

Lemma col_of_inj (m : XDSM) (n1 n2 : string) (C : nat) :
  col_of m n1 = Some C → col_of m n2 = Some C → n1 = n2.
Proof.
  intros (j1 & x1 & -> & Hx1 & <-)%col_of_Some (j2 & x2 & Hj & Hx2 & <-)%col_of_Some.
  assert (j1 = j2) as -> by lia. congruence.
Qed.

Lemma row_of_declared (m : XDSM) (name : string) :
  name ∈ sys_names m → is_Some (row_of m name).
Proof.
  intros Hin. unfold row_of, last_index.
  destruct (last_index_from_declared 0 name (comps m) Hin) as [j ->]. done.
Qed.

Lemma col_of_declared (m : XDSM) (name : string) :
  name ∈ sys_names m → is_Some (col_of m name).
Proof.
  intros Hin. unfold col_of, last_index.
  destruct (last_index_from_declared 0 name (comps m) Hin) as [j ->]. done.
Qed.

Section last_hit.
Context {A : Type} (pos : A → option (nat * nat)) (val : A → string).

Lemma last_hit_None (l : list A) (p : nat * nat) :
  (∀ x, x ∈ l → pos x ≠ Some p) → last_hit pos val l p = None.
Proof.
  induction l as [|x l IH]; intros Hl; simpl; [done|].
  rewrite IH by (intros y Hy; apply Hl; by apply list_elem_of_further).
  rewrite decide_False; [done|]. apply Hl, list_elem_of_here.
Qed.

Lemma last_hit_Some (l : list A) (p : nat * nat) (v : string) :
  last_hit pos val l p = Some v → ∃ x, x ∈ l ∧ pos x = Some p ∧ v = val x.
Proof.
  induction l as [|x l IH]; simpl; [done|].
  destruct (last_hit pos val l p) as [v'|] eqn:Hl.
  - intros [= ->]. destruct (IH eq_refl) as (y & Hy & Hp & ->).
    exists y. split_and!; [by apply list_elem_of_further | done..].
  - case_decide as Hp; [|done]. intros [= <-]. exists x.
    split_and!; [apply list_elem_of_here | done..].
Qed.

(** The last declaration written to a cell is the one found there. *)
Lemma last_hit_app (l1 l2 : list A) (x : A) (p : nat * nat) :
  pos x = Some p → (∀ y, y ∈ l2 → pos y ≠ Some p) →
  last_hit pos val (l1 ++ x :: l2) p = Some (val x).
Proof.
  intros Hx Hl2. induction l1 as [|a l1 IH]; simpl.
  - rewrite (last_hit_None l2 p Hl2). by rewrite decide_True.
  - by rewrite IH.
Qed.

(** When all declarations written to a cell carry one value, that value is
    found there. *)
Lemma last_hit_unique (l : list A) (x : A) (p : nat * nat) :
  x ∈ l → pos x = Some p → (∀ y, y ∈ l → pos y = Some p → val y = val x) →
  last_hit pos val l p = Some (val x).
Proof.
  intros Hin Hx Hall.
  destruct (last_hit pos val l p) as [v|] eqn:Hl.
  - apply last_hit_Some in Hl as (y & Hy & Hp & ->). f_equal. by apply Hall.
  - exfalso. revert Hl. induction l as [|a l IH]; [by apply elem_of_nil in Hin|].
    simpl. destruct (last_hit pos val l p) eqn:Hl'; [done|].
    apply elem_of_cons in Hin as [->|Hin].
    + by rewrite decide_True.
    + intros _. apply IH; [done | | done].
      intros y Hy. apply Hall. by apply list_elem_of_further.
Qed.
End last_hit.

Lemma dict_value_unique {V : Type} (d : dict V) (k : string) (v1 v2 : V) :
  NoDup (dict_keys d) → (k, v1) ∈ d → (k, v2) ∈ d → v1 = v2.
Proof.
  intros Hd H1 H2. apply (dict_get_elem_of _ _ _ Hd) in H1, H2. congruence.
Qed.

(** When the grid is built, every looked-up name has its row and column. *)
Lemma node_grid_Ok_declared (m : XDSM) (g : grid) (k : string) :
  node_grid m = Ok g → k ∈ referenced_names m →
  is_Some (row_of m k) ∧ is_Some (col_of m k).
Proof.
  intros Hg Hk. destruct (node_grid_outcome m) as [[Hall _]|(k' & Hr & _)]; [|congruence].
  split; [apply row_of_declared | apply col_of_declared]; by apply Hall.
Qed.

Lemma row_of_range (m : XDSM) (name : string) (R : nat) :
  row_of m name = Some R → row_shift m ≤ R < length (comps m) + row_shift m.
Proof.
  intros (j & x & -> & Hx%lookup_lt_Some & _)%row_of_Some. lia.
Qed.

Lemma col_of_range (m : XDSM) (name : string) (C : nat) :
  col_of m name = Some C → col_shift m ≤ C < length (comps m) + col_shift m.
Proof.
  intros (j & x & -> & Hx%lookup_lt_Some & _)%col_of_Some. lia.
Qed.

Section border.
Variable m : XDSM.

(** No input is written to a row that a name stands for. *)
Lemma in_cell_not_row (x : string * marker) (name : string) (R C : nat) :
  x ∈ ins m → row_of m name = Some R → in_cell m x ≠ Some (R, C).
Proof.
  intros Hx HR%row_of_range. unfold in_cell, row_shift in *.
  rewrite (truthy_elem_of _ _ Hx) in HR.
  destruct (col_of m x.1); simpl; [|done]. intros [= <- _]. lia.
Qed.

(** No right output is written to a column that a name stands for, nor to
    the column of the left outputs. *)
Lemma right_cell_not_col (x : string * marker) (R C : nat) :
  x ∈ right_outs m → C < length (comps m) + col_shift m → right_cell m x ≠ Some (R, C).
Proof.
  intros Hx HC. unfold right_cell.
  destruct (row_of m x.1); simpl; [|done]. intros [= _ Heq].
  rewrite grid_size_shifts, (truthy_elem_of _ _ Hx) in Heq. lia.
Qed.

(** No left output is written to a column that a name stands for. *)
Lemma left_cell_not_col (x : string * marker) (name : string) (R C : nat) :
  x ∈ left_outs m → col_of m name = Some C → left_cell m x ≠ Some (R, C).
Proof.
  intros Hx HC%col_of_range. unfold left_cell, col_shift in *.
  rewrite (truthy_elem_of _ _ Hx) in HC.
  destruct (row_of m x.1); simpl; [|done]. intros [= _ <-]. lia.
Qed.
End border.

(** The cell of the last connection between two names. *)
Lemma connection_cell (m : XDSM) (g : grid)
    (before after : list conn) (cn : conn) :
  node_grid m = Ok g → connections m = before ++ cn :: after →
  (∀ cn', cn' ∈ after →
     ¬ (conn_src cn' = conn_src cn ∧ conn_target cn' = conn_target cn)) →
  ∃ R C, row_of m (conn_src cn) = Some R ∧ col_of m (conn_target cn) = Some C
    ∧ cell g R C = Some (conn_node cn).
Proof.
  intros Hg Hconn Hafter.
  assert (cn ∈ connections m) as Hcn.
  { rewrite Hconn. apply elem_of_app. right. apply list_elem_of_here. }
  assert (∀ k, k ∈ [conn_src cn; conn_target cn] → k ∈ referenced_names m) as Href.
  { intros k Hk. unfold referenced_names. apply elem_of_app. left.
    apply elem_of_concat_procs. exists [conn_src cn; conn_target cn].
    split; [|done]. apply list_elem_of_fmap. by exists cn. }
  destruct (proj1 (node_grid_Ok_declared m g (conn_src cn) Hg
              (Href _ (list_elem_of_here _ _)))) as [R HR].
  destruct (proj2 (node_grid_Ok_declared m g (conn_target cn) Hg
              (Href _ (list_elem_of_further _ _ _ (list_elem_of_here _ _))))) as [C HC].
  exists R, C. split_and!; [done..|].
  pose proof (row_of_range m _ _ HR) as HRr. pose proof (col_of_range m _ _ HC) as HCr.
  pose proof (grid_size_shifts m) as Hsize.
  destruct (node_grid_expected m g Hg) as (_ & _ & Hcells).
  rewrite Hcells by lia. f_equal. unfold expected_cell.
  rewrite last_hit_None by (intros x Hx; by eapply in_cell_not_row).
  rewrite last_hit_None by (intros x Hx; apply right_cell_not_col; [done | lia]).
  rewrite last_hit_None by (intros x Hx; by eapply left_cell_not_col).
  rewrite Hconn, (last_hit_app _ _ before after cn (R, C)); [done | |].
  - unfold conn_cell. by rewrite HR, HC.
  - intros cn' Hcn' Hcell. apply (Hafter cn' Hcn'). unfold conn_cell in Hcell.
    destruct (row_of m (conn_src cn')) as [R'|] eqn:HR'; [simpl in Hcell|done].
    destruct (col_of m (conn_target cn')) as [C'|] eqn:HC'; [simpl in Hcell|done].
    simplify_eq. split; [by eapply row_of_inj | by eapply col_of_inj].
Qed.

(** Whenever the grid is built, a connection after which no connection
    between the same two names is declared has its node at the row its
    source stands for and the column its target stands for (a name stands
    for the last component that carries it); earlier connections between
    the same two names are overwritten by it, and no marker is written to
    that cell. *)
Theorem connection_node_in_its_cell (m : XDSM) (g : grid)
    (before after : list conn) (cn : conn) :
  node_grid m = Ok g → connections m = before ++ cn :: after →
  (∀ cn', cn' ∈ after →
     ¬ (conn_src cn' = conn_src cn ∧ conn_target cn' = conn_target cn)) →
  ∃ R C, row_of m (conn_src cn) = Some R ∧ col_of m (conn_target cn) = Some C
    ∧ cell g R C = Some (conn_node cn).
Proof. apply connection_cell. Qed.

Lemma connection_node_in_its_cell_witness :
  ∃ R C, row_of all_markers_model "A" = Some R ∧ col_of all_markers_model "B" = Some C
    ∧ cell [[""; "\node [DataIO] (output_A) {$x$};";
             "\node [DataIO] (output_B) {$z$};"; ""; ""];
            ["\node [DataIO] (left_output_A) {$f$};";
             "\node [Analysis] (A) {$A$};"; "\node [DataInter] (A-B) {$y$};";
             ""; "\node [DataIO,stack] (right_output_A) {$g$};"];
            [""; ""; "\node [Analysis] (B) {$B$};"; ""; ""];
            [""; ""; ""; ""; ""]; [""; ""; ""; ""; ""]] R C
      = Some (conn_node (Conn "A" "B" "DataInter" (LStr "y") false false)).
Proof.
  apply (connection_node_in_its_cell all_markers_model _ [] []
           (Conn "A" "B" "DataInter" (LStr "y") false false)).
  - reflexivity.
  - reflexivity.
  - intros cn' Hcn'. by apply elem_of_nil in Hcn'.
Defined.

Lemma marker_key_referenced (m : XDSM) (k : string) (d : marker) :
  (k, d) ∈ left_outs m ∨ (k, d) ∈ right_outs m ∨ (k, d) ∈ ins m →
  k ∈ referenced_names m.
Proof.
  assert (∀ l : dict marker, (k, d) ∈ l → k ∈ dict_keys l) as Hkey.
  { intros l Hin. apply list_elem_of_fmap. by exists (k, d). }
  unfold referenced_names. intros [H|[H|H]]; apply Hkey in H;
    apply elem_of_app; right; apply elem_of_app; [by left|right..];
    apply elem_of_app; [by left | by right].
Qed.

(** The cells of the markers. *)
Lemma marker_cells (m : XDSM) (g : grid) :
  reachable m → node_grid m = Ok g →
  (∀ k d, (k, d) ∈ left_outs m →
     ∃ R, row_of m k = Some R ∧ cell g R 0 = Some (marker_node d))
  ∧ (∀ k d, (k, d) ∈ right_outs m →
       ∃ R, row_of m k = Some R ∧ cell g R (length g - 1) = Some (marker_node d))
  ∧ (∀ k d, (k, d) ∈ ins m →
       ∃ C, col_of m k = Some C ∧ cell g 0 C = Some (marker_node d)).
Proof.
  intros Hm Hg. pose proof (reachable_wf m Hm) as [_ _ Hni Hnl Hnr].
  destruct (node_grid_expected m g Hg) as (Hlen & _ & Hcells).
  pose proof (grid_size_shifts m) as Hsize. rewrite Hlen.
  split_and!; intros k d Hkd.
  - destruct (proj1 (node_grid_Ok_declared m g k Hg
                (marker_key_referenced m k d (or_introl Hkd)))) as [R HR].
    exists R. split; [done|]. pose proof (row_of_range m _ _ HR) as HRr.
    pose proof (truthy_elem_of _ _ Hkd) as Ht.
    rewrite Hcells by (rewrite Hsize; unfold col_shift; rewrite ?Ht; lia).
    f_equal. unfold expected_cell.
    rewrite last_hit_None by (intros x Hx; by eapply in_cell_not_row).
    rewrite last_hit_None.
    2: { intros x Hx. apply right_cell_not_col; [done|]. unfold col_shift. rewrite Ht. lia. }
    rewrite (last_hit_unique _ _ (left_outs m) (k, d) (R, 0)); [done..| |].
    + unfold left_cell. simpl. by rewrite HR.
    + intros [k' d'] Hy Hcell. unfold left_cell in Hcell. simpl in *.
      destruct (row_of m k') as [R'|] eqn:HR'; [simpl in Hcell|done]. simplify_eq.
      assert (k' = k) as -> by by eapply row_of_inj.
      by rewrite (dict_value_unique _ _ _ _ Hnl Hy Hkd).
  - destruct (proj1 (node_grid_Ok_declared m g k Hg
                (marker_key_referenced m k d (or_intror (or_introl Hkd))))) as [R HR].
    exists R. split; [done|]. pose proof (row_of_range m _ _ HR) as HRr.
    pose proof (truthy_elem_of _ _ Hkd) as Ht.
    rewrite Hcells by (rewrite Hsize, Ht; lia). f_equal. unfold expected_cell.
    rewrite last_hit_None by (intros x Hx; by eapply in_cell_not_row).
    rewrite (last_hit_unique _ _ (right_outs m) (k, d) (R, grid_size m - 1)); [done..| |].
    + unfold right_cell. simpl. by rewrite HR.
    + intros [k' d'] Hy Hcell. unfold right_cell in Hcell. simpl in *.
      destruct (row_of m k') as [R'|] eqn:HR'; [simpl in Hcell|done]. simplify_eq.
      assert (k' = k) as -> by by eapply row_of_inj.
      by rewrite (dict_value_unique _ _ _ _ Hnr Hy Hkd).
  - destruct (proj2 (node_grid_Ok_declared m g k Hg
                (marker_key_referenced m k d (or_intror (or_intror Hkd))))) as [C HC].
    exists C. split; [done|]. pose proof (col_of_range m _ _ HC) as HCr.
    pose proof (truthy_elem_of _ _ Hkd) as Ht.
    rewrite Hcells by (rewrite Hsize; unfold row_shift; rewrite ?Ht; lia).
    f_equal. unfold expected_cell.
    rewrite (last_hit_unique _ _ (ins m) (k, d) (0, C)); [done..| |].
    + unfold in_cell. simpl. by rewrite HC.
    + intros [k' d'] Hy Hcell. unfold in_cell in Hcell. simpl in *.
      destruct (col_of m k') as [C'|] eqn:HC'; [simpl in Hcell|done]. simplify_eq.
      assert (k' = k) as -> by by eapply col_of_inj.
      by rewrite (dict_value_unique _ _ _ _ Hni Hy Hkd).
Qed.

(** On a model made by builder calls, whenever the grid is built, every
    marker's node is in its border cell: a left output in column 0 and a
    right output in the last column, both at the row its owner stands for,
    and an input in row 0 at the column its owner stands for.  Nothing
    declared later overwrites it. *)
Theorem markers_in_border_cells (m : XDSM) (g : grid) :
  reachable m → node_grid m = Ok g →
  (∀ k d, (k, d) ∈ left_outs m →
     ∃ R, row_of m k = Some R ∧ cell g R 0 = Some (marker_node d))
  ∧ (∀ k d, (k, d) ∈ right_outs m →
       ∃ R, row_of m k = Some R ∧ cell g R (length g - 1) = Some (marker_node d))
  ∧ (∀ k d, (k, d) ∈ ins m →
       ∃ C, col_of m k = Some C ∧ cell g 0 C = Some (marker_node d)).
Proof. apply marker_cells. Qed.

Lemma markers_in_border_cells_witness :
  ∃ g, node_grid all_markers_model = Ok g
    ∧ ∃ R, row_of all_markers_model "A" = Some R
        ∧ cell g R 0 = Some (marker_node (Marker "left_output_A" "DataIO" (LStr "f") false)).
Proof.
  eexists. split; [reflexivity|].
  eapply (markers_in_border_cells all_markers_model).
  - do 2 eexists; reflexivity.
  - reflexivity.
  - apply list_elem_of_here.
Defined.

(** Whenever the grid is built, the rows below the last component are
    empty, one for the left outputs and one for the right outputs when
    there are any, and so are the columns between the last component and
    the column of the right outputs: the grid is kept square although
    inputs need a row only and outputs a column only. *)
Theorem grid_spare_rows_and_columns_empty (m : XDSM) (g : grid) (r c : nat) :
  node_grid m = Ok g → r < length g → c < length g →
  length (comps m) + (if truthy (ins m) then 1 else 0) ≤ r
  ∨ (length (comps m) + (if truthy (left_outs m) then 1 else 0) ≤ c
     ∧ c < length g - (if truthy (right_outs m) then 1 else 0)) →
  cell g r c = Some "".
Proof.
  intros Hg Hr Hc Hspare.
  destruct (node_grid_expected m g Hg) as (Hlen & _ & Hcells).
  pose proof (grid_size_shifts m) as Hsize. rewrite Hlen in *.
  fold (row_shift m) (col_shift m) in Hspare.
  rewrite Hcells by done. f_equal. unfold expected_cell.
  rewrite last_hit_None.
  2: { intros x Hx. unfold in_cell. destruct (col_of m x.1) as [C|] eqn:HC; [simpl|done].
       intros [= <- <-]. apply col_of_range in HC.
       unfold row_shift in Hspare. rewrite (truthy_elem_of _ _ Hx) in Hspare. lia. }
  rewrite last_hit_None.
  2: { intros x Hx. unfold right_cell. destruct (row_of m x.1) as [R|] eqn:HR; [simpl|done].
       intros [= <- <-]. apply row_of_range in HR.
       rewrite (truthy_elem_of _ _ Hx) in Hspare. lia. }
  rewrite last_hit_None.
  2: { intros x Hx. unfold left_cell. destruct (row_of m x.1) as [R|] eqn:HR; [simpl|done].
       intros [= <- <-]. apply row_of_range in HR.
       unfold col_shift in Hspare. rewrite (truthy_elem_of _ _ Hx) in Hspare. lia. }
  rewrite last_hit_None.
  2: { intros x Hx. unfold conn_cell.
       destruct (row_of m (conn_src x)) as [R|] eqn:HR; [simpl|done].
       destruct (col_of m (conn_target x)) as [C|] eqn:HC; [simpl|done].
       intros [= <- <-]. apply row_of_range in HR. apply col_of_range in HC. lia. }
  unfold diag_cell. simpl. case_bool_decide as Hd; [|done].
  rewrite lookup_ge_None_2; [done|]. destruct Hd as (? & ? & ?). lia.
Qed.

Lemma grid_spare_rows_and_columns_empty_witness :
  ∃ g, node_grid all_markers_model = Ok g ∧ cell g 4 2 = Some "".
Proof.
  eexists. split; [reflexivity|].
  apply (grid_spare_rows_and_columns_empty all_markers_model);
    [reflexivity | simpl; lia | simpl; lia | left; simpl; lia].
Defined.

(** ** Edges and process entries point at nodes of the grid *)

(** Among the elements of a list that satisfy a decidable property, there
    is a last one. *)
Lemma last_such {A : Type} (P : A → Prop) `{!∀ x, Decision (P x)} (l : list A) :
  Exists P l → ∃ l1 y l2, l = l1 ++ y :: l2 ∧ P y ∧ ∀ z, z ∈ l2 → ¬ P z.
Proof.
  induction l as [|a l IH]; [by intros ?%Exists_nil|].
  intros Hex. destruct (decide (Exists P l)) as [Hl|Hno].
  - destruct (IH Hl) as (l1 & y & l2 & -> & Hy & Hl2). by exists (a :: l1), y, l2.
  - apply Exists_cons in Hex as [Ha|?]; [|done].
    exists [], a, l. split_and!; [done..|]. intros z Hz HPz. apply Hno.
    apply Exists_exists. by exists z.
Qed.

Section placed.
Variables (m : XDSM) (g : grid).
Hypothesis Hm : reachable m.
Hypothesis Hg : node_grid m = Ok g.

Lemma component_placed (name : string) :
  name ∈ sys_names m → ∃ i, component_at m g name i.
Proof.
  intros Hin.
  destruct (last_index_from_declared 0 name (comps m) Hin) as [i Hi].
  fold (last_index name (comps m)) in Hi.
  destruct (last_index_Some _ _ _ Hi) as (c & Hc & Hn).
  destruct (node_grid_diagonal m g (wf_conn m (reachable_wf m Hm)) Hg) as [_ Hdiag].
  exists i. split; [done|]. exists c. split_and!; [done..|]. by apply Hdiag.
Qed.

Lemma referenced_placed (name : string) :
  name ∈ referenced_names m → ∃ i, component_at m g name i.
Proof.
  intros Hn. apply component_placed.
  destruct (node_grid_outcome m) as [[Hall _]|(k & Hr & _)]; [by apply Hall | congruence].
Qed.

Lemma component_at_row (name : string) (i R : nat) :
  component_at m g name i → row_of m name = Some R → R = i + row_shift m.
Proof. intros [Hi _]. unfold row_of. rewrite Hi. by intros [= <-]. Qed.

Lemma component_at_col (name : string) (i C : nat) :
  component_at m g name i → col_of m name = Some C → C = i + col_shift m.
Proof. intros [Hi _]. unfold col_of. rewrite Hi. by intros [= <-]. Qed.

Lemma connection_placed (cn : conn) :
  cn ∈ connections m →
  ∃ i j, component_at m g (conn_src cn) i ∧ component_at m g (conn_target cn) j
    ∧ connection_at m g (conn_src cn) (conn_target cn) i j.
Proof.
  intros Hcn.
  assert (∀ k, k ∈ [conn_src cn; conn_target cn] → k ∈ referenced_names m) as Href.
  { intros k Hk. unfold referenced_names. apply elem_of_app. left.
    apply elem_of_concat_procs. exists [conn_src cn; conn_target cn].
    split; [|done]. apply list_elem_of_fmap. by exists cn. }
  destruct (referenced_placed _ (Href _ (list_elem_of_here _ _))) as [i Hi].
  destruct (referenced_placed _
              (Href _ (list_elem_of_further _ _ _ (list_elem_of_here _ _)))) as [j Hj].
  exists i, j. split_and!; [done..|].
  destruct (last_such (λ c, conn_src c = conn_src cn ∧ conn_target c = conn_target cn)
              (connections m)) as (l1 & cn' & l2 & Hl & [Hs Ht] & Hl2).
  { apply Exists_exists. by exists cn. }
  destruct (connection_cell m g l1 l2 cn' Hg Hl) as (R & C & HR & HC & Hcell).
  { intros c Hc [H1 H2]. apply (Hl2 c Hc). split; congruence. }
  rewrite Hs in HR. rewrite Ht in HC.
  rewrite (component_at_row _ _ _ Hi HR), (component_at_col _ _ _ Hj HC) in Hcell.
  exists cn'. split_and!; [|done..].
  rewrite Hl. apply elem_of_app. right. apply list_elem_of_here.
Qed.

Lemma left_out_placed (k : string) (d : marker) :
  (k, d) ∈ left_outs m →
  ∃ i, component_at m g k i ∧ cell g (i + row_shift m) 0 = Some (marker_node d).
Proof.
  intros Hkd.
  destruct (referenced_placed k (marker_key_referenced m k d (or_introl Hkd))) as [i Hi].
  destruct (marker_cells m g Hm Hg) as (Hl & _ & _).
  destruct (Hl k d Hkd) as (R & HR & Hcell).
  rewrite (component_at_row _ _ _ Hi HR) in Hcell. by exists i.
Qed.

Lemma right_out_placed (k : string) (d : marker) :
  (k, d) ∈ right_outs m →
  ∃ i, component_at m g k i
    ∧ cell g (i + row_shift m) (length g - 1) = Some (marker_node d).
Proof.
  intros Hkd.
  destruct (referenced_placed k
              (marker_key_referenced m k d (or_intror (or_introl Hkd)))) as [i Hi].
  destruct (marker_cells m g Hm Hg) as (_ & Hr & _).
  destruct (Hr k d Hkd) as (R & HR & Hcell).
  rewrite (component_at_row _ _ _ Hi HR) in Hcell. by exists i.
Qed.

Lemma in_placed (k : string) (d : marker) :
  (k, d) ∈ ins m →
  ∃ i, component_at m g k i ∧ cell g 0 (i + col_shift m) = Some (marker_node d).
Proof.
  intros Hkd.
  destruct (referenced_placed k
              (marker_key_referenced m k d (or_intror (or_intror Hkd)))) as [i Hi].
  destruct (marker_cells m g Hm Hg) as (_ & _ & Hin).
  destruct (Hin k d Hkd) as (C & HC & Hcell).
  rewrite (component_at_col _ _ _ Hi HC) in Hcell. by exists i.
Qed.

Lemma output_name_placed (name : string) : name ∈ output_names m → marker_at m g name.
Proof.
  unfold output_names, dict_values.
  intros [Hn|[Hn|Hn]%elem_of_app]%elem_of_app;
    apply list_elem_of_fmap in Hn as (d & -> & Hd);
    apply list_elem_of_fmap in Hd as ([k d'] & -> & Hkd); simpl.
  - destruct (in_placed k d' Hkd) as (i & Hi & Hcell).
    exists k, d', i. split_and!; [done..|]. right; right. done.
  - destruct (left_out_placed k d' Hkd) as (i & Hi & Hcell).
    exists k, d', i. split_and!; [done..|]. left. done.
  - destruct (right_out_placed k d' Hkd) as (i & Hi & Hcell).
    exists k, d', i. split_and!; [done..|]. right; left. done.
Qed.
End placed.

Lemma h_edges_declared (m : XDSM) (e : string) : e ∈ h_edges m ↔ h_edge_of m e.
Proof.
  unfold h_edges, h_edge_of. rewrite !elem_of_app, !list_elem_of_fmap. split.
  - intros [(cn & -> & Hcn)|[([k d] & -> & Hkd)|([k d] & -> & Hkd)]].
    + left. by exists cn.
    + right. exists k, d. split; [by left | done].
    + right. exists k, d. split; [by right | done].
  - intros [(cn & Hcn & ->)|(k & d & [Hkd|Hkd] & ->)].
    + left. by exists cn.
    + right; left. by exists (k, d).
    + right; right. by exists (k, d).
Qed.

Lemma v_edges_declared (m : XDSM) (e : string) : e ∈ v_edges m ↔ v_edge_of m e.
Proof.
  unfold v_edges, v_edge_of. rewrite !elem_of_app, !list_elem_of_fmap. split.
  - intros [(cn & -> & Hcn)|([k d] & -> & Hkd)].
    + left. by exists cn.
    + right. by exists k, d.
  - intros [(cn & Hcn & ->)|(k & d & Hkd & ->)].
    + left. by exists cn.
    + right. by exists (k, d).
Qed.

(** On a model made by builder calls whose grid is built, both ends of
    every edge of [_build_edges] are nodes of the grid, each in the cell of
    its declaration.  The horizontal edges are those of the connections,
    from the source to the off-diagonal node, and of the left and right
    outputs, from the owner to the marker's node; the vertical edges are
    those of the connections, from the off-diagonal node to the target, and
    of the inputs, from the owner to the marker's node.  For every
    connection, source and target are components on the diagonal, the i-th
    and the j-th, and the cell in the row of the one and the column of the
    other holds the node of a connection between these two names; for every
    marker, the owner is a component on the diagonal, the i-th, and the
    marker's own node is in the first column of that component's row (left
    output), in the last column of it (right output), or in the first row
    of that component's column (input). *)
Theorem edges_join_placed_nodes (m : XDSM) (g : grid) :
  reachable m → node_grid m = Ok g →
  (∀ e, e ∈ h_edges m ↔ h_edge_of m e)
  ∧ (∀ e, e ∈ v_edges m ↔ v_edge_of m e)
  ∧ (∀ cn, cn ∈ connections m →
       ∃ i j, component_at m g (conn_src cn) i ∧ component_at m g (conn_target cn) j
         ∧ connection_at m g (conn_src cn) (conn_target cn) i j)
  ∧ (∀ k d, (k, d) ∈ left_outs m →
       ∃ i, component_at m g k i ∧ cell g (i + row_shift m) 0 = Some (marker_node d))
  ∧ (∀ k d, (k, d) ∈ right_outs m →
       ∃ i, component_at m g k i
         ∧ cell g (i + row_shift m) (length g - 1) = Some (marker_node d))
  ∧ (∀ k d, (k, d) ∈ ins m →
       ∃ i, component_at m g k i ∧ cell g 0 (i + col_shift m) = Some (marker_node d)).
Proof.
  intros Hm Hg. split_and!.
  - apply h_edges_declared.
  - apply v_edges_declared.
  - by apply connection_placed.
  - by apply left_out_placed.
  - by apply right_out_placed.
  - by apply in_placed.
Qed.

Lemma edges_join_placed_nodes_witness :
  ∃ g, node_grid all_markers_model = Ok g
    ∧ ∀ cn, cn ∈ connections all_markers_model →
        ∃ i j, component_at all_markers_model g (conn_src cn) i
          ∧ component_at all_markers_model g (conn_target cn) j
          ∧ connection_at all_markers_model g (conn_src cn) (conn_target cn) i j.
Proof.
  destruct (node_grid all_markers_model) as [g|err] eqn:Hg; [|discriminate Hg].
  exists g. split; [reflexivity|].
  apply (edges_join_placed_nodes all_markers_model g).
  - do 2 eexists; reflexivity.
  - exact Hg.
Defined.

(** On a model made by builder calls whose grid and process chain are both
    built, every entry of every process is the name of a node of the grid:
    of a component, whose node is in its cell of the diagonal, or of a
    marker, whose node is in its border cell next to the row or column of
    its owner. *)
Theorem process_entries_placed (m : XDSM) (g : grid) (s : string)
    (proc : list string) (sys : string) :
  reachable m → node_grid m = Ok g → build_process_chain m = Ok s →
  proc ∈ processes m → sys ∈ proc →
  (∃ i, component_at m g sys i) ∨ marker_at m g sys.
Proof.
  intros Hm Hg Hs Hproc Hsys.
  rewrite (build_process_chain_closed m (wf_arrows m (reachable_wf m Hm))) in Hs.
  destruct (find _ _) eqn:Hfind; [done|].
  assert (unresolved (sys_names m) (output_names m) sys = false) as Hres.
  { apply (find_none _ _ Hfind). apply list_elem_of_In, elem_of_concat_procs.
    by exists proc. }
  unfold unresolved, name_in in Hres.
  apply andb_false_iff in Hres as [Hr|Hr]; apply negb_false_iff, bool_decide_eq_true in Hr.
  - left. by apply (component_placed m g Hm Hg).
  - right. by apply (output_name_placed m g Hm Hg).
Qed.

Lemma process_entries_placed_witness :
  ∃ g, node_grid through_marker_model = Ok g
    ∧ ((∃ i, component_at through_marker_model g "output_A" i)
       ∨ marker_at through_marker_model g "output_A").
Proof.
  eexists. split; [reflexivity|].
  eapply (process_entries_placed through_marker_model _ _ ["A"; "output_A"; "B"]).
  - do 2 eexists; reflexivity.
  - reflexivity.
  - reflexivity.
  - apply list_elem_of_here.
  - apply list_elem_of_further, list_elem_of_here.
Defined.

(** ** How a new connection changes the grid *)

Lemma last_hit_snoc {A : Type} (pos : A → option (nat * nat)) (val : A → string)
    (l : list A) (x : A) (p : nat * nat) :
  last_hit pos val (l ++ [x]) p
  = if decide (pos x = Some p) then Some (val x) else last_hit pos val l p.
Proof.
  induction l as [|a l IH]; simpl.
  - by case_decide.
  - rewrite IH. case_decide as Hx; [done|]. done.
Qed.

Lemma last_index_is_last (name : string) (cs : list comp) (j : nat) :
  last_index name cs = Some j →
  ∀ j' x', j < j' → cs !! j' = Some x' → comp_name x' ≠ name.
Proof.
  unfold last_index.
  assert (∀ k j, last_index_from k name cs = Some j →
            ∀ i x', j - k < i → cs !! i = Some x' → comp_name x' ≠ name) as Hgen.
  { clear j. induction cs as [|c cs IH]; intros k j; simpl; [done|].
    destruct (last_index_from (S k) name cs) as [j0|] eqn:Hl.
    - intros [= ->] i x' Hi Hx'. apply last_index_from_Some in Hl as Hle.
      destruct i as [|i]; [lia|]. simpl in Hx'.
      apply (IH (S k) j Hl i x'); [lia | done].
    - case_decide as Hn; [|done]. intros [= ->] i x' Hi Hx'.
      destruct i as [|i]; [lia|]. simpl in Hx'. intros Heq.
      assert (comp_name x' ∈ comp_name <$> cs) as Hin.
      { apply list_elem_of_fmap. exists x'. split; [done|].
        by eapply list_elem_of_lookup_2. }
      rewrite Heq in Hin.
      destruct (last_index_from_declared (S j) name cs Hin) as [? ?]. congruence. }
  intros Hj j' x' Hlt. apply (Hgen 0 j Hj). lia.
Qed.

(** After [connect] between two different declared names, on a model whose
    grid is built, the grid is built again and differs from the one before
    in one cell only: the cell at the row of the source and the column of
    the target, which now holds the node of the new connection (whatever a
    former connection between the two names had put there). *)
Theorem connect_changes_one_cell (m : XDSM) (g : grid) (src target : string)
    (lbl : label) (style : string) (stack faded : bool) :
  node_grid m = Ok g → src ≠ target → src ∈ sys_names m → target ∈ sys_names m →
  let m' := (connect src target lbl style stack faded m).2 in
  ∃ g' R C, node_grid m' = Ok g' ∧ length g' = length g
    ∧ row_of m src = Some R ∧ col_of m target = Some C
    ∧ cell g' R C = Some (conn_node (Conn src target style lbl stack faded))
    ∧ ∀ r c, r < length g → c < length g → r ≠ R ∨ c ≠ C → cell g' r c = cell g r c.
Proof.
  intros Hg Hne Hs Ht. unfold connect. rewrite decide_False by done. simpl.
  set (cn := Conn src target style lbl stack faded).
  set (m' := {| comps := comps m; connections := connections m ++ [cn];
                left_outs := left_outs m; right_outs := right_outs m; ins := ins m;
                processes := processes m; process_arrows := process_arrows m;
                use_sfmath := use_sfmath m |}).
  destruct (node_grid_outcome m') as [[_ (g' & Hg' & _ & Hlen')]|(k & _ & _ & Hk & Hno)].
  2: { exfalso. apply Hno. change (sys_names m') with (sys_names m).
       destruct (node_grid_outcome m) as [[Hall _]|(k' & Hr & _)]; [|congruence].
       unfold referenced_names in Hk. simpl in Hk.
       rewrite fmap_app, concat_app in Hk. simpl in Hk.
       rewrite <-app_assoc in Hk.
       apply elem_of_app in Hk as [Hk|Hk].
       - apply Hall. unfold referenced_names. apply elem_of_app. by left.
       - change ([src; target] ++ dict_keys (left_outs m) ++ dict_keys (right_outs m)
                 ++ dict_keys (ins m)) with
           (src :: target :: dict_keys (left_outs m) ++ dict_keys (right_outs m)
                 ++ dict_keys (ins m)) in Hk.
         apply elem_of_cons in Hk as [->|Hk]; [done|].
         apply elem_of_cons in Hk as [->|Hk]; [done|].
         apply Hall. unfold referenced_names. apply elem_of_app. by right. }
  destruct (node_grid_expected m g Hg) as (Hlen & _ & Hcells).
  destruct (node_grid_expected m' g' Hg') as (_ & _ & Hcells').
  change (grid_size m') with (grid_size m) in *.
  destruct (connection_cell m' g' (connections m) [] cn Hg' eq_refl)
    as (R & C & HR & HC & Hcell).
  { intros cn' Hcn'. by apply elem_of_nil in Hcn'. }
  exists g', R, C. split_and!; [done | congruence | done..|].
  intros r c Hr Hc Hrc. rewrite Hlen in Hr, Hc.
  rewrite Hcells, Hcells' by done. f_equal. unfold expected_cell.
  change (last_hit (in_cell m') (λ x, marker_node x.2) (ins m') (r, c))
    with (last_hit (in_cell m) (λ x, marker_node x.2) (ins m) (r, c)).
  change (last_hit (right_cell m') (λ x, marker_node x.2) (right_outs m') (r, c))
    with (last_hit (right_cell m) (λ x, marker_node x.2) (right_outs m) (r, c)).
  change (last_hit (left_cell m') (λ x, marker_node x.2) (left_outs m') (r, c))
    with (last_hit (left_cell m) (λ x, marker_node x.2) (left_outs m) (r, c)).
  change (last_hit (conn_cell m') conn_node (connections m') (r, c))
    with (last_hit (conn_cell m) conn_node (connections m ++ [cn]) (r, c)).
  rewrite last_hit_snoc. rewrite decide_False; [done|].
  change (row_of m src = Some R) in HR. change (col_of m target = Some C) in HC.
  unfold conn_cell. change (conn_src cn) with src. change (conn_target cn) with target.
  rewrite HR, HC. simpl. intros [= <- <-]. by destruct Hrc.
Qed.

Lemma connect_changes_one_cell_witness :
  ∃ g' R C, node_grid (connect "B" "A" (LStr "w") "DataInter" false false
                         all_markers_model).2 = Ok g'
    ∧ length g' = 5
    ∧ row_of all_markers_model "B" = Some R ∧ col_of all_markers_model "A" = Some C
    ∧ cell g' R C = Some (conn_node (Conn "B" "A" "DataInter" (LStr "w") false false)).
Proof.
  destruct (node_grid all_markers_model) as [g|err] eqn:Hg; [|discriminate Hg].
  destruct (connect_changes_one_cell all_markers_model g "B" "A" (LStr "w") "DataInter"
              false false Hg)
    as (g' & R & C & Hg' & Hlen & HR & HC & Hcell & _).
  - discriminate.
  - apply list_elem_of_further, list_elem_of_here.
  - apply list_elem_of_here.
  - exists g', R, C. split_and!; [done | | done..].
    rewrite Hlen. injection Hg as <-. reflexivity.
Defined.

(** ** The order in which markers are declared *)

Lemma last_hit_ext {A : Type} (pos pos' : A → option (nat * nat)) (val : A → string)
    (l : list A) (p : nat * nat) :
  (∀ x, pos x = pos' x) → last_hit pos val l p = last_hit pos' val l p.
Proof.
  intros Hext. induction l as [|x l IH]; simpl; [done|]. by rewrite IH, Hext.
Qed.

Lemma last_hit_None_inv {A : Type} (pos : A → option (nat * nat)) (val : A → string)
    (l : list A) (p : nat * nat) (x : A) :
  last_hit pos val l p = None → x ∈ l → pos x ≠ Some p.
Proof.
  induction l as [|a l IH]; simpl; [by intros _ ?%elem_of_nil|].
  destruct (last_hit pos val l p); [done|]. case_decide as Ha; [done|].
  intros _ [->|Hx]%elem_of_cons; [done | by apply IH].
Qed.

(** In a dictionary whose entries are written to cells that tell the keys
    apart, the value found in a cell does not depend on the order of the
    entries. *)
Lemma last_hit_perm (pos : string * marker → option (nat * nat))
    (val : string * marker → string) (l1 l2 : dict marker) (p : nat * nat) :
  NoDup (dict_keys l2) → l1 ≡ₚ l2 →
  (∀ x y, pos x = Some p → pos y = Some p → x.1 = y.1) →
  last_hit pos val l1 p = last_hit pos val l2 p.
Proof.
  intros Hnd Hperm Hinj.
  destruct (last_hit pos val l1 p) as [v|] eqn:H1.
  - apply last_hit_Some in H1 as (x & Hx & Hp & ->). symmetry.
    apply last_hit_unique; [by rewrite <-Hperm | done |].
    intros y Hy Hpy. f_equal. destruct x as [k d], y as [k' d'].
    pose proof (Hinj _ _ Hp Hpy) as Hk. simpl in Hk. subst k'. f_equal.
    apply (dict_value_unique l2 k); [done | done | by rewrite <-Hperm].
  - symmetry. apply last_hit_None. intros x Hx.
    apply (last_hit_None_inv pos val l1 p x H1). by rewrite Hperm.
Qed.

(** Two square grids with the same cells are the same grid. *)
Lemma grid_ext (n : nat) (g1 g2 : grid) :
  square n g1 → square n g2 →
  (∀ r c, r < n → c < n → cell g1 r c = cell g2 r c) → g1 = g2.
Proof.
  intros [Hl1 Hr1] [Hl2 Hr2] Hcells. apply list_eq. intros r.
  destruct (decide (r < n)) as [Hr|Hr].
  - destruct (lookup_lt_is_Some_2 g1 r) as [row1 Hrow1]; [lia|].
    destruct (lookup_lt_is_Some_2 g2 r) as [row2 Hrow2]; [lia|].
    rewrite Hrow1, Hrow2. f_equal. apply list_eq. intros c.
    destruct (decide (c < n)) as [Hc|Hc].
    + specialize (Hcells r c Hr Hc). unfold cell in Hcells.
      by rewrite Hrow1, Hrow2 in Hcells.
    + rewrite !lookup_ge_None_2; [done|..].
      * rewrite (Hr2 r row2 Hrow2). lia.
      * rewrite (Hr1 r row1 Hrow1). lia.
  - rewrite !lookup_ge_None_2; [done | lia..].
Qed.

Lemma truthy_perm {A : Type} (l1 l2 : list A) : l1 ≡ₚ l2 → truthy l1 = truthy l2.
Proof.
  intros Hp. apply Permutation_length in Hp. by destruct l1, l2.
Qed.

(** Two models made by builder calls with the same components and
    connections and the same markers declared in a different order have the
    same grid, whenever the first has one: the order of the marker
    declarations reaches the edge list only. *)
Theorem marker_order_does_not_change_grid (m1 m2 : XDSM) (g : grid) :
  reachable m1 → reachable m2 →
  comps m1 = comps m2 → connections m1 = connections m2 →
  ins m1 ≡ₚ ins m2 → left_outs m1 ≡ₚ left_outs m2 → right_outs m1 ≡ₚ right_outs m2 →
  node_grid m1 = Ok g → node_grid m2 = Ok g.
Proof.
  intros Hm1 Hm2 Hcomps Hconn Hi Hl Hr Hg.
  pose proof (reachable_wf m2 Hm2) as [_ _ Hni Hnl Hnr].
  assert (row_shift m1 = row_shift m2) as Hrs
    by (unfold row_shift; by rewrite (truthy_perm _ _ Hi)).
  assert (col_shift m1 = col_shift m2) as Hcs
    by (unfold col_shift; by rewrite (truthy_perm _ _ Hl)).
  assert (grid_size m1 = grid_size m2) as Hsize.
  { rewrite !grid_size_shifts, Hrs, Hcs, Hcomps. by rewrite (truthy_perm _ _ Hr). }
  assert (∀ name, row_of m1 name = row_of m2 name) as Hrow
    by (intros name; unfold row_of; by rewrite Hrs, Hcomps).
  assert (∀ name, col_of m1 name = col_of m2 name) as Hcol
    by (intros name; unfold col_of; by rewrite Hcs, Hcomps).
  assert (sys_names m1 = sys_names m2) as Hsys by (unfold sys_names; by rewrite Hcomps).
  destruct (node_grid_outcome m1) as [[Hall1 _]|(k' & Hr' & _)]; [|congruence].
  destruct (node_grid_outcome m2) as [[_ (g2 & Hg2 & _)]|(k & _ & _ & Hk & Hno)].
  2: { exfalso. apply Hno. rewrite <-Hsys. apply Hall1.
       unfold referenced_names, dict_keys in *. rewrite Hconn.
       by rewrite (fmap_Permutation fst _ _ Hi), (fmap_Permutation fst _ _ Hl),
         (fmap_Permutation fst _ _ Hr). }
  rewrite Hg2. f_equal.
  destruct (node_grid_expected m1 g Hg) as (Hlen1 & Hrows1 & Hcells1).
  destruct (node_grid_expected m2 g2 Hg2) as (Hlen2 & Hrows2 & Hcells2).
  apply (grid_ext (grid_size m2)); [done | by rewrite <-Hsize |].
  intros r c Hrn Hcn. rewrite Hcells2 by done. rewrite Hcells1 by (by rewrite Hsize).
  f_equal. unfold expected_cell.
  rewrite (last_hit_ext (in_cell m1) (in_cell m2))
    by (intros x; unfold in_cell; by rewrite Hcol).
  rewrite (last_hit_ext (right_cell m1) (right_cell m2))
    by (intros x; unfold right_cell; by rewrite Hrow, Hsize).
  rewrite (last_hit_ext (left_cell m1) (left_cell m2))
    by (intros x; unfold left_cell; by rewrite Hrow).
  rewrite (last_hit_ext (conn_cell m1) (conn_cell m2))
    by (intros x; unfold conn_cell; by rewrite Hrow, Hcol).
  rewrite (last_hit_perm (in_cell m2) _ (ins m1) (ins m2)); [|done..|].
  2: { intros x y. unfold in_cell.
       destruct (col_of m2 x.1) as [C1|] eqn:H1; [simpl|done].
       destruct (col_of m2 y.1) as [C2|] eqn:H2; [simpl|done].
       intros [= <- <-] [= ->]. by eapply col_of_inj. }
  rewrite (last_hit_perm (right_cell m2) _ (right_outs m1) (right_outs m2)); [|done..|].
  2: { intros x y. unfold right_cell.
       destruct (row_of m2 x.1) as [R1|] eqn:H1; [simpl|done].
       destruct (row_of m2 y.1) as [R2|] eqn:H2; [simpl|done].
       intros [= <- <-] [= ->]. by eapply row_of_inj. }
  rewrite (last_hit_perm (left_cell m2) _ (left_outs m1) (left_outs m2)); [|done..|].
  2: { intros x y. unfold left_cell.
       destruct (row_of m2 x.1) as [R1|] eqn:H1; [simpl|done].
       destruct (row_of m2 y.1) as [R2|] eqn:H2; [simpl|done].
       intros [= <- <-] [= ->]. by eapply row_of_inj. }
  unfold diag_cell. by rewrite Hconn, Hcomps, Hrs, Hcs.
Qed.

Lemma marker_order_does_not_change_grid_witness :
  ∃ g, node_grid two_inputs_model = Ok g ∧ node_grid two_inputs_swapped_model = Ok g.
Proof.
  destruct (node_grid two_inputs_model) as [g|err] eqn:Hg; [|discriminate Hg].
  exists g. split; [reflexivity|].
  apply (marker_order_does_not_change_grid two_inputs_model two_inputs_swapped_model g).
  - do 2 eexists; reflexivity.
  - do 2 eexists; reflexivity.
  - reflexivity.
  - reflexivity.
  - apply perm_swap.
  - reflexivity.
  - reflexivity.
  - exact Hg.
Defined.
